(** * The evaluation-and-completion engine of the prototype REPL (src/index.js)

    A shallow embedding of [wrapObjectLiteralExpressionIfNeeded],
    [collectGlobalNames], [performEval], [callFunctionOn], [onLine],
    [oneLineEval] and [onAutocomplete], followed by the properties the
    specification states about them.

    The engine talks to four kinds of collaborators that are not part of
    src/index.js: the JavaScript engine itself (number conversion, the
    [AsyncFunction] constructor used as a syntax checker, [util.inspect]), the
    acorn parsers, the inspector [Runtime] domain, and the repository modules
    [./recoverable], [./await], [./util] and [./NativeFunctions].  Each is an
    interface (a type class) here; the embedded functions are written against
    the interfaces exactly as the source is written against the modules. *)

From Stdlib Require Import NArith ZArith Ascii String Decimal DecimalN Lia.
From stdpp Require Import base option list gmap.

Local Open Scope Z_scope.
Local Open Scope nat_scope.

(** ** JavaScript strings

    A JavaScript string is a sequence of UTF-16 code units; [length], [slice],
    [startsWith] and the like all count code units. *)

Abbreviation jsstring := (list N).

(** An ASCII literal as a JavaScript string. *)
Definition js (s : string) : jsstring :=
  N_of_ascii <$> list_ascii_of_string s.

Module JSString.

(** [WhiteSpace] and [LineTerminator] code units: what [\s] matches and what
    [String.prototype.trim] strips. *)
Definition is_whitespace (c : N) : bool :=
  bool_decide (c ∈ [9; 10; 11; 12; 13; 32; 160; 5760; 8232; 8233; 8239; 8287;
                    12288; 65279]%N)
  || ((8192 <=? c)%N && (c <=? 8202)%N).

Fixpoint trimStart (s : jsstring) : jsstring :=
  match s with
  | c :: s' => if is_whitespace c then trimStart s' else s
  | [] => []
  end.

Definition trimEnd (s : jsstring) : jsstring :=
  reverse (trimStart (reverse s)).

Definition trim (s : jsstring) : jsstring := trimEnd (trimStart s).

(** [s.startsWith(p)] and [s.endsWith(p)] for a string [p]. *)
Definition startsWith (s p : jsstring) : bool := bool_decide (p `prefix_of` s).
Definition endsWith (s p : jsstring) : bool := bool_decide (p `suffix_of` s).
#[global] Arguments startsWith : simpl never.
#[global] Arguments endsWith : simpl never.

(** [s.includes(p)]. *)
Fixpoint includes (s p : jsstring) : bool :=
  startsWith s p ||
  match s with
  | _ :: s' => includes s' p
  | [] => false
  end.

(** [s.lastIndexOf(p)], scanning [s] from position [i]: the greatest index
    at which [p] occurs, or [-1]. *)
Fixpoint lastIndexOf_from (i : nat) (s p : jsstring) : Z :=
  match s with
  | [] => if startsWith [] p then Z.of_nat i else (-1)%Z
  | _ :: s' =>
      let later := lastIndexOf_from (S i) s' p in
      if (0 <=? later)%Z then later
      else if startsWith s p then Z.of_nat i else (-1)%Z
  end.

Definition lastIndexOf (s p : jsstring) : Z := lastIndexOf_from 0 s p.

(** [s.slice(from)] and [s.slice(from, to)] for non-negative indexes. *)
Definition slice_from (s : jsstring) (from : nat) : jsstring := drop from s.
Definition slice (s : jsstring) (from to : nat) : jsstring :=
  take (to - from) (drop from s).

(** [l.join(sep)]. *)
Fixpoint join (sep : jsstring) (l : list jsstring) : jsstring :=
  match l with
  | [] => []
  | [x] => x
  | x :: l' => x ++ sep ++ join sep l'
  end.

(** The decimal numeral of a natural number, as [Number.prototype.toString]
    prints an integer below 2^53. *)
Fixpoint digits (d : Decimal.uint) : jsstring :=
  match d with
  | Nil => []
  | D0 d => 48%N :: digits d
  | D1 d => 49%N :: digits d
  | D2 d => 50%N :: digits d
  | D3 d => 51%N :: digits d
  | D4 d => 52%N :: digits d
  | D5 d => 53%N :: digits d
  | D6 d => 54%N :: digits d
  | D7 d => 55%N :: digits d
  | D8 d => 56%N :: digits d
  | D9 d => 57%N :: digits d
  end.

Definition decimal (n : N) : jsstring := digits (N.to_uint n).

Definition quote : N := 39%N.          (* ' *)

End JSString.

Import JSString.

(** ** Exceptions

    A JavaScript call either returns or throws; an [async] function that throws
    rejects its promise, which the awaiting caller sees as a throw. *)

Inductive Exception := TypeError | SyntaxError | ProtocolError.

Inductive Outcome (A : Type) :=
  | Returned (a : A)
  | Thrown (e : Exception).
Arguments Returned {A} a.
Arguments Thrown {A} e.

Definition outcome_bind {A B} (o : Outcome A) (k : A → Outcome B) : Outcome B :=
  match o with
  | Returned a => k a
  | Thrown e => Thrown e
  end.

(** [l.map(f)] where [f] may throw: the first throw aborts the map. *)
Definition outcome_map {A B} (f : A → Outcome B) : list A → Outcome (list B) :=
  fix go l :=
    match l with
    | [] => Returned []
    | a :: l' =>
        outcome_bind (f a) (λ b, outcome_bind (go l') (λ bs, Returned (b :: bs)))
    end.

(** ** The JavaScript engine

    Numbers are IEEE doubles; the engine is taken as the authority on them.
    [ToNumber] is unary [+] on a string, [Number_toString] the conversion a
    template literal applies, [Number_toBoolean] truthiness.
    [AsyncFunction_parses body] says that [(async () => 0).constructor(body)]
    does not throw a [SyntaxError]. *)

Class JSEngine := {
  Number : Type;
  ToNumber : jsstring → Number;
  Number_toString : Number → jsstring;
  Number_toBoolean : Number → bool;
  AsyncFunction_parses : jsstring → bool;
}.

(** ** The inspector protocol ([Runtime] domain) *)

Module Protocol.

Record RemoteObject := {
  type : jsstring;
  subtype : option jsstring;
  className : option jsstring;
  description : option jsstring;
  objectId : option jsstring;
  value : option jsstring;        (* a primitive's value, as JSON text *)
}.

Record ExceptionDetails := {
  text : jsstring;
  exception : RemoteObject;
}.

(** The argument of [Runtime.evaluate] as [performEval] builds it;
    [timeout = None] is [undefined]. *)
Record EvaluateParams := {
  expression : jsstring;
  generatePreview : bool;
  awaitPromise : bool;
  silent : bool;
  throwOnSideEffect : bool;
  timeout : option N;
  executionContextId : N;
}.

Record EvaluateReturn := {
  result : RemoteObject;
  exceptionDetails : option ExceptionDetails;
}.

(** [symbol] is whether the descriptor has a [symbol] member. *)
Record PropertyDescriptor := {
  name : jsstring;
  isOwn : bool;
  symbol : bool;
}.

End Protocol.
Import Protocol.

(** ** Session state: [global.REPL] *)

Module REPL.
Record state := {
  last : option RemoteObject;
  lastError : option RemoteObject;
  _inspectTarget : option RemoteObject;
}.

(** [global.REPL] as the module's top level leaves it (lines 411-425). *)
Definition initial : state :=
  {| last := None; lastError := None; _inspectTarget := None |}.
End REPL.

(** The three functions the source hands to [Runtime.callFunctionOn]
    (lines 106-108, 116-118 and 133-135), named by what they assign. *)
Inductive FunctionDeclaration :=
  | SetLastError        (* (err) => { global.REPL.lastError = err; } *)
  | SetLast             (* (result) => { global.REPL.last = result; } *)
  | SetInspectTarget.   (* (v) => { global.REPL._inspectTarget = v; } *)

Definition run_declaration (f : FunctionDeclaration) (arg : RemoteObject)
    (s : REPL.state) : REPL.state :=
  match f with
  | SetLastError =>
      {| REPL.last := REPL.last s; REPL.lastError := Some arg;
         REPL._inspectTarget := REPL._inspectTarget s |}
  | SetLast =>
      {| REPL.last := Some arg; REPL.lastError := REPL.lastError s;
         REPL._inspectTarget := REPL._inspectTarget s |}
  | SetInspectTarget =>
      {| REPL.last := REPL.last s; REPL.lastError := REPL.lastError s;
         REPL._inspectTarget := Some arg |}
  end.

(** A request sent over the protocol channel. *)
Inductive ProtocolCall :=
  | Evaluate (params : EvaluateParams)
  | CallFunctionOn (functionDeclaration : FunctionDeclaration)
      (argument : RemoteObject) (executionContextId : N)
  | GetProperties (objectId : option jsstring) (generatePreview : bool)
  | GlobalLexicalScopeNames.

(** Which of the two [util.inspect] configurations of the source is used:
    [inspect] of line 32, or the one-line form of lines 139-144. *)
Inductive InspectOptions := ColorsShowProxy | CompactOneLine.

(** The target process.  [Target] is everything in it besides [global.REPL];
    every round trip may change it, and every round trip may fail.  An
    evaluation reads [global.REPL] (the accessors [_] and [_err] of lines
    428-447 expose it).  [host_callFunctionOn] is the round trip of
    [Runtime.callFunctionOn] for one of the functions of
    [FunctionDeclaration]: when it returns the function has run, when it
    throws the request was refused and the function has not run.
    [util_inspect] is [util.inspect] of a value held in a [global.REPL]
    slot: it runs in the same process, calls the value's own inspection
    hook, and so may change the target and may throw.
    The members of [global.REPL] are assigned through the functions of
    [FunctionDeclaration] only: text that a user evaluates, or an inspection
    hook, could assign them as well, and that is left out. *)
Class Host := {
  Target : Type;
  host_evaluate :
    EvaluateParams → REPL.state → Target → Outcome EvaluateReturn * Target;
  host_getProperties :
    option jsstring → Target → Outcome (list PropertyDescriptor) * Target;
  host_globalLexicalScopeNames : Target → Outcome (list jsstring) * Target;
  host_callFunctionOn :
    FunctionDeclaration → RemoteObject → N → Target → Outcome () * Target;
  (** [Object.getOwnPropertyNames(global)] *)
  host_globalOwnPropertyNames : Target → list jsstring;
  (** [await mainContextIdPromise] *)
  mainContextId : N;
  util_inspect :
    InspectOptions → option RemoteObject → Target → Outcome jsstring * Target;
  (** [util.inspect(result.value)], line 147: the value of a result without
      an object handle is a primitive, which has no hook *)
  util_inspect_value : option jsstring → jsstring;
}.

(** ** Syntax trees

    Only the members the source reads are kept. *)

(** A node's [start] and [end] offsets into the parsed text. *)
Record Span := { start : nat; end_ : nat }.

(** A function parameter as [acorn.parse] returns it, read the way
    [paramName] reads it (lines 252-271).  An [ObjectPattern] is given by the
    [value] member of each of its [properties]: a [Property] has one, a
    [RestElement] (the [...rest] of [{ a, ...rest }]) has none.  An
    [ArrayPattern] is given by its [elements], where a hole ([[a, , b]]) is
    [null]. *)
Module Param.
#[local] Set Warnings "-register-all".
Inductive node :=
  | Identifier (name : jsstring)
  | AssignmentPattern (lhs : node)              (* the [left] member *)
  | ObjectPattern (property_values : list (option node))
  | ArrayPattern (elements : list (option node))
  | RestElement (argument : node)
  | Other.
End Param.

(** The expression [acorn.parse] finds in a function description, read the
    way lines 225-250 read it. *)
Module Described.
(** A member of a class body: [method.kind] and [method.value.params]. *)
Record method := { kind : jsstring; params : list Param.node }.

(** The [value] of an object literal's property: a function with its
    [params], or something that has no [params] member. *)
Inductive property_value :=
  | Function (params : list Param.node)
  | NotAFunction.

Inductive expression :=
  | ClassExpression (body : option (list method))              (* expr.body.body *)
  | ObjectExpression (property_values : list (option property_value))
  | FunctionExpression (params : list Param.node)
  | ArrowFunctionExpression (params : list Param.node)
  | Other.
End Described.

Section Syntax.
Context {engine : JSEngine}.

(** What a [Literal] node's [value] can be, and so what the completion
    [filter] variable can hold. *)
Inductive JSValue :=
  | VUndefined
  | VNull
  | VBoolean (b : bool)
  | VNumber (x : Number)
  | VString (s : jsstring)
  | VRegExp.

(** The tree [parseDammit] builds for the buffer. *)
Inductive PropertyNode :=
  | Literal (value : JSValue) (raw : jsstring)
  | PropertyIdentifier (name : jsstring)
  | OtherProperty.

(** [callee_object] is [callee.object] when [callee.type] is
    ['MemberExpression']. *)
Record Callee := {
  callee_span : Span;
  callee_object : option Span;
}.

Inductive Expression :=
  | Identifier (name : jsstring)
  | CallExpression (callee : Callee) (arguments_length : nat)
  | MemberExpression (object : Span) (computed : bool) (property : PropertyNode)
  | OtherExpression.

(** [statement_id] is the name of the [id] member, for statements that
    have one (function and class declarations). *)
Inductive Statement :=
  | ExpressionStatement (expression : Expression)
  | OtherStatement (statement_id : option jsstring).

(** The two acorn entry points.  [parseDammit] (the loose parser) always
    returns a program, given here by its [body].  [acorn_parse] throws on a
    syntax error ([None]); on success it is given by the [expression]
    member of each statement of the body. *)
Class Acorn := {
  parseDammit : jsstring → list Statement;
  acorn_parse : jsstring → option (list (option Described.expression));
}.
End Syntax.

(** ** The repository's other modules

    [./recoverable], [./await], [./util] and [./NativeFunctions] are required
    by src/index.js and are not part of it.  [processTopLevelAwait] returns
    [null] ([None]) or the rewritten text.  [NativeFunctions owner name] is
    the token list [NativeFunctions[owner][name][0]]. *)
Class Modules := {
  isRecoverableError : jsstring → bool;
  processTopLevelAwait : jsstring → option jsstring;
  strEscape : jsstring → jsstring;
  isIdentifier : jsstring → bool;
  NativeFunctions : jsstring → option (jsstring → option (list jsstring));
}.

(** What [onLine] resolves to: [IO.kNeedsAnotherLine] or rendered text. *)
Inductive LineResult :=
  | kNeedsAnotherLine
  | Rendered (text : jsstring).

(** What [onAutocomplete] resolves to: [undefined], a string (an inline
    preview or a parameter suggestion), or an array of strings. *)
Inductive Completion :=
  | Undefined
  | Text (s : jsstring)
  | Candidates (l : list jsstring).

(** ** [wrapObjectLiteralExpressionIfNeeded] (lines 35-54) *)

Section Wrap.
Context {engine : JSEngine}.

(** [/^\s*\{/.test(code)] *)
Definition test_leading_brace (code : jsstring) : bool :=
  startsWith (trimStart code) (js "{").

(** [/\}\s*$/.test(code)] *)
Definition test_trailing_brace (code : jsstring) : bool :=
  endsWith (trimEnd code) (js "}").

Definition wrapObjectLiteralExpressionIfNeeded (code : jsstring) : jsstring :=
  if negb (test_leading_brace code && test_trailing_brace code) then code
  else
    if AsyncFunction_parses (js "return " ++ code ++ js ";") then
      let wrappedCode := js "(" ++ code ++ js ")" in
      if AsyncFunction_parses wrappedCode then wrappedCode else code
    else code.
End Wrap.

(** ** The world and the monad of the engine

    The engine is single-threaded: every [await] is a round trip that
    completes before the next statement runs.  An [async] function is a
    state transformer over the world that returns or throws. *)

Section World.
Context {host : Host}.

Record World := {
  target : Target;
  repl : REPL.state;                                          (* global.REPL *)
  functionCompletionCache : gmap (option jsstring) (list jsstring);  (* line 64 *)
  calls : list ProtocolCall;               (* the requests sent, oldest first *)
}.

Definition M (A : Type) : Type := World → Outcome A * World.

#[export] Instance M_ret : MRet M := λ A a w, (Returned a, w).
#[export] Instance M_bind : MBind M := λ A B k m w,
  match m w with
  | (Returned a, w') => k a w'
  | (Thrown e, w') => (Thrown e, w')
  end.

Definition throw {A} (e : Exception) : M A := λ w, (Thrown e, w).

(** [try { m } catch (e) { ... }]: the outcome of [m], handed to the
    continuation instead of propagating. *)
Definition try_catch {A} (m : M A) : M (Outcome A) := λ w,
  let '(o, w') := m w in (Returned o, w').

Definition lift {A} (o : Outcome A) : M A := λ w, (o, w).

Definition get_repl : M REPL.state := λ w, (Returned (repl w), w).
Definition get_target : M Target := λ w, (Returned (target w), w).

Definition sent (c : ProtocolCall) (t : Target) (w : World) : World :=
  {| target := t; repl := repl w;
     functionCompletionCache := functionCompletionCache w;
     calls := calls w ++ [c] |}.

(** [functionCompletionCache.get] and [.set] *)
Definition cache_get (objectId : option jsstring) : M (option (list jsstring)) :=
  λ w, (Returned (functionCompletionCache w !! objectId), w).

Definition cache_set (objectId : option jsstring) (params : list jsstring) : M () :=
  λ w, (Returned (),
        {| target := target w; repl := repl w;
           functionCompletionCache := <[objectId := params]> (functionCompletionCache w);
           calls := calls w |}).

(** The four operations of the protocol client. *)
Definition Runtime_evaluate (params : EvaluateParams) : M EvaluateReturn := λ w,
  let '(o, t) := host_evaluate params (repl w) (target w) in
  (o, sent (Evaluate params) t w).

Definition Runtime_getProperties (objectId : option jsstring)
    (generatePreview : bool) : M (list PropertyDescriptor) := λ w,
  let '(o, t) := host_getProperties objectId (target w) in
  (o, sent (GetProperties objectId generatePreview) t w).

Definition Runtime_globalLexicalScopeNames : M (list jsstring) := λ w,
  let '(o, t) := host_globalLexicalScopeNames (target w) in
  (o, sent GlobalLexicalScopeNames t w).

(** [Runtime.callFunctionOn] for the three declarations the source uses:
    when the round trip succeeds the function has run in the target and
    assigned its argument to a member of [global.REPL]. *)
Definition Runtime_callFunctionOn (functionDeclaration : FunctionDeclaration)
    (argument : RemoteObject) (executionContextId : N) : M () := λ w,
  let '(o, t) :=
    host_callFunctionOn functionDeclaration argument executionContextId (target w) in
  (o,
   {| target := t;
      repl := match o with
              | Returned _ => run_declaration functionDeclaration argument (repl w)
              | Thrown _ => repl w
              end;
      functionCompletionCache := functionCompletionCache w;
      calls := calls w ++ [CallFunctionOn functionDeclaration argument executionContextId] |}).

(** The target after something has run in it without a request. *)
Definition ran (t : Target) (w : World) : World :=
  {| target := t; repl := repl w;
     functionCompletionCache := functionCompletionCache w;
     calls := calls w |}.

(** [util.inspect(value, options)] for the value of a [global.REPL] slot. *)
Definition inspectWith (options : InspectOptions) (value : option RemoteObject)
    : M jsstring := λ w,
  let '(o, t) := util_inspect options value (target w) in (o, ran t w).
End World.

(** ** The engine (lines 56-377) *)

(** Control flow of a function body: a [return] that leaves it, or falling
    through to the next statement with the local variables' values. *)
Inductive Flow (R A : Type) :=
  | Return (r : R)
  | Continue (a : A).
Arguments Return {R A} r.
Arguments Continue {R A} a.

Section Engine.
Context {engine : JSEngine} {host : Host} {acorn : Acorn} {modules : Modules}.

(** Lines 56-62.  The own property names are read first; the lexical
    names, when the round trip succeeds, are put in front of them. *)
Definition collectGlobalNames : M (list jsstring) :=
  t ← get_target;
  let keys := host_globalOwnPropertyNames t in
  names ← try_catch Runtime_globalLexicalScopeNames;
  match names with
  | Returned names => mret (names ++ keys)
  | Thrown _ => mret keys
  end.

(** Lines 66-77. *)
Definition performEval (code : jsstring) (awaitPromise bestEffort : bool)
    : M EvaluateReturn :=
  let expression := wrapObjectLiteralExpressionIfNeeded code in
  Runtime_evaluate
    {| expression := expression;
       generatePreview := true;
       awaitPromise := awaitPromise;
       silent := bestEffort;
       throwOnSideEffect := bestEffort;
       timeout := if bestEffort then Some 500%N else None;
       executionContextId := mainContextId |}.

(** Lines 79-85. *)
Definition callFunctionOn (func : FunctionDeclaration) (remoteObject : RemoteObject)
    : M () :=
  Runtime_callFunctionOn func remoteObject mainContextId.

(** [inspect] of line 32, applied to a slot of [global.REPL]. *)
Definition inspect (slot : REPL.state → option RemoteObject) : M jsstring :=
  s ← get_repl;
  inspectWith ColorsShowProxy (slot s).

(** Lines 87-95: the line that is evaluated and the [awaited] flag. *)
Definition rewriteAwait (line : jsstring) : jsstring * bool :=
  if includes line (js "await") then
    match processTopLevelAwait line with
    | Some processed => (processed, true)
    | None => (line, false)
    end
  else (line, false).

(** Lines 87-122. *)
Definition onLine (line : jsstring) : M LineResult :=
  let '(line, awaited) := rewriteAwait line in
  evaluateResult ← performEval line awaited false;
  match exceptionDetails evaluateResult with
  | Some details =>
      let expression := wrapObjectLiteralExpressionIfNeeded line in
      if isRecoverableError expression then mret kNeedsAnotherLine
      else
        callFunctionOn SetLastError (exception details);;
        s ← inspect REPL.lastError;
        mret (Rendered s)
  | None =>
      callFunctionOn SetLast (result evaluateResult);;
      s ← inspect REPL.last;
      mret (Rendered s)
  end.

(** [if (result.objectId)]: a non-empty string. *)
Definition truthy_string (s : option jsstring) : bool :=
  match s with
  | Some (_ :: _) => true
  | _ => false
  end.

(** Lines 124-148; [None] is [undefined]. *)
Definition oneLineEval (source : jsstring) : M (option jsstring) :=
  r ← performEval (wrapObjectLiteralExpressionIfNeeded source) false true;
  match exceptionDetails r with
  | Some _ => mret None
  | None =>
      if truthy_string (objectId (result r)) then
        Runtime_callFunctionOn SetInspectTarget (result r) mainContextId;;
        s ← get_repl;
        s ← inspectWith CompactOneLine (REPL._inspectTarget s);
        mret (Some (js " // " ++ trim s))
      else
        mret (Some (js " // " ++ util_inspect_value (value (result r))))
  end.

(** [return oneLineEval(buffer)] inside [onAutocomplete]. *)
Definition inlinePreview (buffer : jsstring) : M Completion :=
  s ← oneLineEval buffer;
  mret (match s with Some s => Text s | None => Undefined end).

(** *** Conversions applied to the [filter] variable *)

(** [keys.includes(filter)]: [SameValueZero] against strings. *)
Definition keys_include (keys : list jsstring) (filter : JSValue) : bool :=
  match filter with
  | VString s => bool_decide (s ∈ keys)
  | _ => false
  end.

(** [if (filter)] *)
Definition ToBoolean (v : JSValue) : bool :=
  match v with
  | VUndefined | VNull => false
  | VBoolean b => b
  | VNumber x => Number_toBoolean x
  | VString s => negb (bool_decide (s = []))
  | VRegExp => true
  end.

(** [k.startsWith(filter)]: a regular expression is refused with a
    [TypeError]; anything else is converted to a string. *)
Definition startsWith_value (k : jsstring) (filter : JSValue) : Outcome bool :=
  match filter with
  | VRegExp => Thrown TypeError
  | VString s => Returned (startsWith k s)
  | VNumber x => Returned (startsWith k (Number_toString x))
  | VBoolean b => Returned (startsWith k (if b then js "true" else js "false"))
  | VNull => Returned (startsWith k (js "null"))
  | VUndefined => Returned (startsWith k (js "undefined"))
  end.

(** [filter.length]: only a string has one. *)
Definition value_length (filter : JSValue) : option nat :=
  match filter with
  | VString s => Some (length s)
  | _ => None
  end.

(** [k.slice(filter.length)]; [k.slice(undefined)] is [k]. *)
Definition slice_value (k : jsstring) (n : option nat) : jsstring :=
  match n with
  | Some n => slice_from k n
  | None => k
  end.

(** [l.filter(p)] where [p] may throw. *)
Definition outcome_filter {A} (p : A → Outcome bool) : list A → Outcome (list A) :=
  fix go l :=
    match l with
    | [] => Returned []
    | a :: l' =>
        outcome_bind (p a) (λ b,
          outcome_bind (go l') (λ rest, Returned (if b then a :: rest else rest)))
    end.

(** Lines 369-371. *)
Definition filterKeys (keys : list jsstring) (filter : JSValue)
    : Outcome (list jsstring) :=
  outcome_bind (outcome_filter (λ k, startsWith_value k filter) keys) (λ kept,
    Returned ((λ k, slice_value k (value_length filter)) <$> kept)).

(** Lines 367-376, with [keys = None] for [undefined]. *)
Definition finish (buffer : jsstring) (keys : option (list jsstring))
    (filter : JSValue) : M Completion :=
  match keys with
  | Some keys =>
      if ToBoolean filter then
        l ← lift (filterKeys keys filter);
        mret (Candidates l)
      else mret (Candidates keys)
  | None => inlinePreview buffer
  end.

(** *** Call expressions (lines 172-300) *)

(** Lines 179-195; [None] is [undefined].  [arguments_length] is
    [expression.arguments.length]. *)
Definition finishParams (arguments_length : nat) (buffer : jsstring)
    (params : list jsstring) : option jsstring :=
  if bool_decide (arguments_length = length params) then None
  else
    let params := join (js ", ") (drop arguments_length params) in
    if 0 <? arguments_length then
      if endsWith (trim buffer) (js ",") then
        let spaces :=
          (Z.of_nat (length buffer) - (lastIndexOf buffer (js ",") + 1))%Z in
        if (0 <? spaces)%Z then Some params
        else Some (js " " ++ params)
      else Some (js ", " ++ params)
    else Some params.

(** [const c = finishParams(...); if (c !== undefined) { return c; }] *)
Definition returnIfDefined (c : option jsstring) : Flow Completion () :=
  match c with
  | Some c => Return (Text c)
  | None => Continue ()
  end.

(** Lines 252-271.  Reading [type] of [null] (a hole in an array pattern)
    or of [undefined] (the missing [value] of a rest element in an object
    pattern) throws a [TypeError]. *)
Fixpoint paramName (param : Param.node) : Outcome jsstring :=
  let paramName' (p : option Param.node) : Outcome jsstring :=
    match p with
    | Some p => paramName p
    | None => Thrown TypeError
    end in
  match param with
  | Param.Identifier name => Returned name
  | Param.AssignmentPattern lhs =>          (* param.left *)
      outcome_bind (paramName lhs) (λ s, Returned (js "?" ++ s))
  | Param.ObjectPattern property_values =>
      outcome_bind (outcome_map paramName' property_values) (λ l,
        let list := join (js ", ") l in
        Returned (js "{ " ++ list ++ js " }"))
  | Param.ArrayPattern elements =>
      outcome_bind (outcome_map paramName' elements) (λ l,
        let list := join (js ", ") l in
        Returned (js "[ " ++ list ++ js " ]"))
  | Param.RestElement argument =>
      outcome_bind (paramName argument) (λ s, Returned (js "..." ++ s))
  | Param.Other => Returned (js "?")
  end.

(** Lines 226-250: the [params] the [switch] leaves, [None] for
    [undefined]. *)
Definition describedParams (expr : Described.expression) : option (list Param.node) :=
  match expr with
  | Described.ClassExpression body =>
      match body with
      | None => None
      | Some body =>
          match List.find (λ method,
                   bool_decide (Described.kind method = js "constructor")) body with
          | Some constructor => Some (Described.params constructor)
          | None => None
          end
      end
  | Described.ObjectExpression property_values =>
      match property_values with
      | Some (Described.Function params) :: _ => Some params
      | _ => None
      end
  | Described.FunctionExpression params
  | Described.ArrowFunctionExpression params => Some params
  | Described.Other => None
  end.

(** Lines 213-223: as a function, class or arrow function first, then as
    a method. *)
Definition parseDescription (description : jsstring)
    : option (list (option Described.expression)) :=
  match acorn_parse (js "(" ++ description ++ js ")") with
  | Some parsed => Some parsed
  | None => acorn_parse (js "({" ++ description ++ js "})")
  end.

(** [parseDammit(description).body[0].id.name] (lines 203, 287 and 289).
    An [undefined] description is parsed as the text [undefined]; a first
    statement without an [id] throws a [TypeError]. *)
Definition declaredName (description : option jsstring) : Outcome jsstring :=
  match parseDammit (default (js "undefined") description) with
  | OtherStatement (Some name) :: _ => Returned name
  | _ => Thrown TypeError
  end.

(** [const entry = NativeFunctions[owner][name]; if (entry) {
    functionCompletionCache.set(id, entry[0]); } const c =
    finishParams(entry[0]); ...] (lines 204-211 and 290-297).  A missing
    owner or entry throws a [TypeError]. *)
Definition nativeParams (finishParams : list jsstring → option jsstring)
    (owner name : jsstring) (id : option jsstring) : M (Flow Completion ()) :=
  match NativeFunctions owner with
  | None => throw TypeError
  | Some members =>
      match members name with
      | Some params =>
          cache_set id params;;
          mret (returnIfDefined (finishParams params))
      | None => throw TypeError
      end
  end.

(** Lines 174-300, entered when the expression is a call and the trimmed
    buffer does not end in a closing parenthesis. *)
Definition completeCall (buffer : jsstring) (callee : Callee)
    (arguments_length : nat) : M (Flow Completion ()) :=
  let callee_src :=
    slice buffer (start (callee_span callee)) (end_ (callee_span callee)) in
  evaluateResult ← performEval callee_src false true;
  match exceptionDetails evaluateResult with
  | Some _ => mret (Continue ())
  | None =>
      let description := description (result evaluateResult) in
      let objectId := objectId (result evaluateResult) in
      hit ← cache_get objectId;
      let finishParams := finishParams arguments_length buffer in
      match from_option (λ hit, returnIfDefined (finishParams hit)) (Continue ()) hit with
      | Return c => mret (Return c)
      | Continue _ =>
          match description with
          | None => throw TypeError       (* description.includes of undefined *)
          | Some description =>
              if includes description (js "[native code]") then
                name ← lift (declaredName (Some description));
                nativeParams finishParams (js "globalThis") name objectId
              else if (Z.of_nat (length description) <? 10000)%Z then
                match parseDescription description with
                | Some (Some expr :: _) =>
                    match describedParams expr with
                    | Some params =>
                        params ← lift (outcome_map paramName params);
                        cache_set objectId params;;
                        mret (returnIfDefined (finishParams params))
                    | None => mret (Continue ())
                    end
                | _ => mret (Continue ())
                end
              else
                match callee_object callee with
                | Some object =>
                    let receiverSrc := slice buffer (start object) (end_ object) in
                    r ← performEval receiverSrc false true;
                    match exceptionDetails r with
                    | Some _ => mret (Continue ())
                    | None =>
                        receiver ←
                          (if bool_decide (type (result r) = js "function") then
                             lift (declaredName (Protocol.description (result r)))
                           else
                             mret (default (js "undefined") (className (result r))));
                        name ← lift (declaredName (Some description));
                        nativeParams finishParams receiver name
                          (Protocol.objectId (result r))
                    end
                | None => mret (Continue ())
                end
          end
      end
  end.

(** *** Member expressions (lines 301-365) *)

(** Lines 302-309: the values of [filter] and [leadingQuote].  The code
    unit 10006 is the loose parser's placeholder name. *)
Definition memberFilter (computed : bool) (property : PropertyNode)
    : JSValue * bool :=
  match computed, property with
  | true, Literal value raw => (value, startsWith raw (js "'"))
  | false, PropertyIdentifier name =>
      (if bool_decide (name = [10006%N]) then VUndefined else VString name, false)
  | _, _ => (VUndefined, false)
  end.

(** Lines 350-361: the candidate made from one key of a bracket access. *)
Definition bracketKey (leadingQuote : bool) (key : jsstring) : jsstring :=
  let r :=
    if negb leadingQuote && bool_decide (Number_toString (ToNumber key) = key)
    then key
    else
      let r := strEscape key in
      if leadingQuote then slice_from r 1 else r in
  r ++ js "]".

(** Lines 316-318. *)
Definition needsBoxing (r : RemoteObject) : bool :=
  negb (bool_decide (type r = js "object"))
  && negb (bool_decide (type r = js "undefined"))
  && negb (bool_decide (subtype r = Some (js "null"))).

(** Lines 327-343: own names, then inherited ones, symbols left out. *)
Definition ownThenInherited (properties : list PropertyDescriptor) : list jsstring :=
  let named := List.filter (λ p, negb (symbol p)) properties in
  (name <$> List.filter isOwn named)
  ++ (name <$> List.filter (λ p, negb (isOwn p)) named).

(** Lines 302-364; on falling through, the new [keys] and [filter]. *)
Definition completeMember (buffer : jsstring) (object : Span) (computed : bool)
    (property : PropertyNode) : M (Flow Completion (list jsstring * JSValue)) :=
  let expr := slice buffer (start object) (end_ object) in
  let '(filter, leadingQuote) := memberFilter computed property in
  evaluateResult ← performEval expr false true;
  match exceptionDetails evaluateResult with
  | Some _ => mret (Return Undefined)
  | None =>
      boxed ←
        (if needsBoxing (result evaluateResult) then
           r ← performEval
                 (js "Object(" ++ wrapObjectLiteralExpressionIfNeeded expr ++ js ")")
                 false true;
           mret (match exceptionDetails r with
                 | Some _ => Return Undefined
                 | None => Continue r
                 end)
         else mret (Continue evaluateResult));
      match boxed with
      | Return c => mret (Return c)
      | Continue evaluateResult =>
          properties ← Runtime_getProperties (objectId (result evaluateResult)) true;
          let keys := ownThenInherited properties in
          if keys_include keys filter then
            c ← inlinePreview buffer;
            mret (Return c)
          else if computed then
            mret (Continue (bracketKey leadingQuote <$> keys, filter))
          else
            mret (Continue (List.filter isIdentifier keys, filter))
      end
  end.

(** *** [onAutocomplete] (lines 150-377) *)

Definition onAutocomplete (buffer : jsstring) : M Completion :=
  if bool_decide (length buffer = 0) then
    keys ← collectGlobalNames;
    mret (Candidates keys)
  else
    match parseDammit buffer with
    | [] => throw TypeError                 (* statement.type of undefined *)
    | OtherStatement _ :: _ => mret Undefined
    | ExpressionStatement expression :: _ =>
        (* lines 161-170 *)
        identifier ←
          match expression with
          | Identifier name =>
              keys ← collectGlobalNames;
              if keys_include keys (VString name) then
                c ← inlinePreview buffer;
                mret (Return c)
              else mret (Continue (Some keys, VString name))
          | _ => mret (Continue (None, VUndefined))
          end;
        match identifier with
        | Return c => mret c
        | Continue (keys, filter) =>
            (* lines 172-365 *)
            branch ←
              match expression with
              | CallExpression callee arguments_length =>
                  if negb (endsWith (trim buffer) (js ")")) then
                    c ← completeCall buffer callee arguments_length;
                    mret (match c with
                          | Return c => Return c
                          | Continue _ => Continue (keys, filter)
                          end)
                  else mret (Continue (keys, filter))
              | MemberExpression object computed property =>
                  c ← completeMember buffer object computed property;
                  mret (match c with
                        | Return c => Return c
                        | Continue (keys, filter) => Continue (Some keys, filter)
                        end)
              | _ => mret (Continue (keys, filter))
              end;
            (* lines 367-376 *)
            match branch with
            | Return c => mret c
            | Continue (keys, filter) => finish buffer keys filter
            end
        end
    end.
End Engine.

(** ** A small concrete environment

    One instance of each interface, on which the engine can be run.  It is
    deliberately tiny: the engine's numbers are the natural numbers (with
    [None] for [NaN]), the parsers and the target know a handful of texts.
    On the texts used below each instance answers as the real collaborator
    does. *)

Module Demo.

Definition digit_of (c : N) : option (Decimal.uint → Decimal.uint) :=
  match c with
  | 48 => Some D0 | 49 => Some D1 | 50 => Some D2 | 51 => Some D3
  | 52 => Some D4 | 53 => Some D5 | 54 => Some D6 | 55 => Some D7
  | 56 => Some D8 | 57 => Some D9
  | _ => None
  end%N.

Fixpoint undigits (s : jsstring) : option Decimal.uint :=
  match s with
  | [] => Some Nil
  | c :: s' =>
      match digit_of c, undigits s' with
      | Some D, Some d => Some (D d)
      | _, _ => None
      end
  end.

(** Texts the syntax checker accepts: the two object literals used below,
    as a function body and parenthesized. *)
Definition parses (body : jsstring) : bool :=
  bool_decide (body ∈ [js "return {};"; js "({})";
                       js "return  {} ;"; js "( {} )";
                       js "return {a: 1};"; js "({a: 1})"]).

#[local] Instance engine : JSEngine := {|
  Number := option N;
  ToNumber s := N.of_uint <$> undigits s;
  Number_toString x :=
    match x with Some n => decimal n | None => js "NaN" end;
  Number_toBoolean x :=
    match x with Some n => negb (n =? 0)%N | None => false end;
  AsyncFunction_parses := parses;
|}.

Definition object (className' id : string) : RemoteObject :=
  {| type := js "object"; subtype := None; className := Some (js className');
     description := Some (js className'); objectId := Some (js id);
     value := None |}.

Definition error (className' message id : string) : RemoteObject :=
  {| type := js "object"; subtype := Some (js "error");
     className := Some (js className');
     description := Some (js message); objectId := Some (js id);
     value := None |}.

Definition number (text : string) : RemoteObject :=
  {| type := js "number"; subtype := None; className := None;
     description := Some (js text); objectId := None;
     value := Some (js text) |}.

Definition undefined : RemoteObject :=
  {| type := js "undefined"; subtype := None; className := None;
     description := None; objectId := None; value := None |}.

Definition success (r : RemoteObject) : EvaluateReturn :=
  {| result := r; exceptionDetails := None |}.

Definition uncaught (e : RemoteObject) : EvaluateReturn :=
  {| result := e;
     exceptionDetails := Some {| text := js "Uncaught"; exception := e |} |}.

(** The target: [a] is the object [{ 1: ..., 10: ... }], [Math] is the
    usual object, [1] is a number, an open brace alone is a syntax error,
    [nope] is not defined. *)
Definition evaluate (p : EvaluateParams) : EvaluateReturn :=
  if bool_decide (expression p = js "{") then
    uncaught (error "SyntaxError" "SyntaxError: Unexpected end of input" "9")
  else if bool_decide (expression p = js "nope") then
    uncaught (error "ReferenceError" "ReferenceError: nope is not defined" "8")
  else if bool_decide (expression p = js "a") then success (object "Object" "1")
  else if bool_decide (expression p = js "Math") then success (object "Math" "2")
  else if bool_decide (expression p = js "1") then success (number "1")
  else success undefined.

Definition property (name' : string) (own : bool) : PropertyDescriptor :=
  {| name := js name'; isOwn := own; symbol := false |}.

Definition properties (objectId : option jsstring)
    : Outcome (list PropertyDescriptor) :=
  if bool_decide (objectId = Some (js "1")) then
    Returned [property "1" true; property "10" true; property "constructor" false]
  else if bool_decide (objectId = Some (js "2")) then
    Returned [property "max" true; property "min" true; property "PI" true;
              property "toString" false]
  else Thrown ProtocolError.

(** What [util.inspect] shows of a slot: the description. *)
Definition rendering (slot : option RemoteObject) : jsstring :=
  match slot with
  | Some r => default (js "undefined") (description r)
  | None => js "undefined"
  end.

#[local] Instance host : Host := {|
  Target := ();
  host_evaluate p _ t := (Returned (evaluate p), t);
  host_getProperties id t := (properties id, t);
  host_globalLexicalScopeNames t := (Returned [], t);
  host_globalOwnPropertyNames _ := [js "Object"; js "Math"; js "a"];
  host_callFunctionOn _ _ _ t := (Returned (), t);
  mainContextId := 1%N;
  util_inspect _ slot t := (Returned (rendering slot), t);
  util_inspect_value v := default (js "undefined") v;
|}.

(** The loose parser on the buffers used below. *)
Definition loose (buffer : jsstring) : list Statement :=
  if bool_decide (buffer = js "Ma") then
    [ExpressionStatement (Identifier (js "Ma"))]
  else if bool_decide (buffer = js "a[1") then
    [ExpressionStatement
       (MemberExpression {| start := 0; end_ := 1 |} true
          (Literal (VNumber (Some 1%N)) (js "1")))]
  else if bool_decide (buffer = js "Math.m") then
    [ExpressionStatement
       (MemberExpression {| start := 0; end_ := 4 |} false
          (PropertyIdentifier (js "m")))]
  else [ExpressionStatement OtherExpression].

(** The strict parser on one parenthesized function text. *)
Definition strict (text : jsstring)
    : option (list (option Described.expression)) :=
  if bool_decide (text = js "(function f(a, b = 1, ...rest) {})") then
    Some [Some (Described.FunctionExpression
                  [Param.Identifier (js "a");
                   Param.AssignmentPattern (Param.Identifier (js "b"));
                   Param.RestElement (Param.Identifier (js "rest"))])]
  else None.

#[local] Instance acorn : Acorn := {|
  parseDammit := loose;
  acorn_parse := strict;
|}.

(** Modelled from the spec: [strEscape] of [./util] is not under src/; the
    spec calls its result "the quoted key", so the key is put between
    single quotes (keys with characters that need escaping are outside
    this instance). *)
Definition quoted (key : jsstring) : jsstring := js "'" ++ key ++ js "'".

(** Modelled from the spec: [isRecoverableError] of [./recoverable] is not
    under src/; the spec gives two of its values, "input [{] alone is
    classified recoverable; input [{}] is not". *)
Definition recoverable (code : jsstring) : bool := bool_decide (code = js "{").

#[local] Instance modules : Modules := {|
  isRecoverableError := recoverable;
  processTopLevelAwait _ := None;
  strEscape := quoted;
  isIdentifier s := negb (bool_decide (s = []));
  NativeFunctions _ := None;
|}.

Definition world : World :=
  {| target := (); repl := REPL.initial;
     functionCompletionCache := ∅; calls := [] |}.

End Demo.

(** ** Vocabulary of the specification *)

Definition all_whitespace (ws : jsstring) : Prop :=
  Forall (λ c, is_whitespace c = true) ws.

(** The text begins with an opening brace and ends with a closing one. *)
Definition begins_and_ends_with_braces (code : jsstring) : Prop :=
  (∃ rest, code = js "{" ++ rest) ∧ (∃ rest, code = rest ++ js "}").

(** The same, up to white space before the opening brace and after the
    closing one: what the two regular expressions of line 37 test. *)
Definition leading_brace (code : jsstring) : Prop :=
  ∃ ws rest, all_whitespace ws ∧ code = ws ++ js "{" ++ rest.
Definition trailing_brace (code : jsstring) : Prop :=
  ∃ rest ws, all_whitespace ws ∧ code = rest ++ js "}" ++ ws.

Definition parenthesized (code : jsstring) : jsstring := js "(" ++ code ++ js ")".
Definition as_return (code : jsstring) : jsstring := js "return " ++ code ++ js ";".

(** A request of the best-effort kind: an evaluation with side effects
    suppressed and the 500 ms bound, the function that fills the preview
    slot, or a read-only query. *)
Definition speculative_call (c : ProtocolCall) : Prop :=
  match c with
  | Evaluate p =>
      generatePreview p = true ∧ silent p = true
      ∧ throwOnSideEffect p = true ∧ timeout p = Some 500%N
  | CallFunctionOn f _ _ => f = SetInspectTarget
  | GetProperties _ _ | GlobalLexicalScopeNames => True
  end.

(** The last-value and last-error slots of two session states agree. *)
Definition same_slots (s s' : REPL.state) : Prop :=
  REPL.last s' = REPL.last s ∧ REPL.lastError s' = REPL.lastError s.

Section Steps.
Context {host : Host}.

(** From [w] to [w'] only best-effort requests were sent, and the two
    slots were not written. *)
Definition speculative_step (w w' : World) : Prop :=
  same_slots (repl w) (repl w')
  ∧ ∃ new, calls w' = calls w ++ new ∧ Forall speculative_call new.

(** Every run of [m] is related to its starting world by [R]. *)
Definition keeps (R : relation World) {A} (m : M A) : Prop :=
  ∀ w, R w (m w).2.
End Steps.

Section Written.
Context {host : Host}.

(** What [run] has done from [w1] on is: send the request that writes a
    slot, and render the slot when the request succeeded. *)
Definition written (f : FunctionDeclaration) (v : RemoteObject) (w1 : World)
    (run : Outcome LineResult * World) : Prop :=
  let '(c, t2) := host_callFunctionOn f v mainContextId (target w1) in
  calls run.2 = calls w1 ++ [CallFunctionOn f v mainContextId]
  ∧ functionCompletionCache run.2 = functionCompletionCache w1
  ∧ match c with
    | Thrown e => run.1 = Thrown e ∧ repl run.2 = repl w1 ∧ target run.2 = t2
    | Returned _ =>
        let '(i, t3) := util_inspect ColorsShowProxy (Some v) t2 in
        repl run.2 = run_declaration f v (repl w1)
        ∧ target run.2 = t3
        ∧ run.1 = outcome_bind i (λ text, Returned (Rendered text))
    end.
End Written.

(** The modules with another [processTopLevelAwait] in place of theirs. *)
Definition with_processTopLevelAwait (rewrite : jsstring → option jsstring)
    (modules : Modules) : Modules :=
  {| isRecoverableError := @isRecoverableError modules;
     processTopLevelAwait := rewrite;
     strEscape := @strEscape modules;
     isIdentifier := @isIdentifier modules;
     NativeFunctions := @NativeFunctions modules |}.

(** The code unit of the double quote. *)
Definition double_quote : N := 34%N.

Section Typed.
Context {engine : JSEngine}.

End Typed.

Section Requests.
Context {engine : JSEngine} {host : Host}.

(** The request [onLine] sends for [line]: direct mode. *)
Definition directRequest (line : jsstring) (awaited : bool) : EvaluateParams :=
  {| expression := wrapObjectLiteralExpressionIfNeeded line;
     generatePreview := true;
     awaitPromise := awaited;
     silent := false;
     throwOnSideEffect := false;
     timeout := None;
     executionContextId := mainContextId |}.
End Requests.

(** The display token of a parameter, following the words of the
    specification: an identifier is itself, a default-valued parameter gets
    a question mark in front, a rest parameter an ellipsis, an object pattern
    is the brace-grouped list of its fields' tokens, an array pattern the
    bracket-grouped list of its elements' tokens, anything else is the
    placeholder.  The specification gives no token to an entry that is not a
    pattern (a hole of an array pattern, the rest element of an object
    pattern); [token] is meant for patterns that are [complete]. *)
Fixpoint token (param : Param.node) : jsstring :=
  let token' (p : option Param.node) : jsstring :=
    match p with
    | Some p => token p
    | None => []
    end in
  match param with
  | Param.Identifier name => name
  | Param.AssignmentPattern lhs => js "?" ++ token lhs
  | Param.ObjectPattern fields =>
      js "{ " ++ join (js ", ") (token' <$> fields) ++ js " }"
  | Param.ArrayPattern elements =>
      js "[ " ++ join (js ", ") (token' <$> elements) ++ js " ]"
  | Param.RestElement argument => js "..." ++ token argument
  | Param.Other => js "?"
  end.

(** Every field of every object pattern has a value and no array pattern
    has a hole. *)
Fixpoint complete (param : Param.node) : bool :=
  let complete' (p : option Param.node) : bool :=
    match p with
    | Some p => complete p
    | None => false
    end in
  match param with
  | Param.Identifier _ | Param.Other => true
  | Param.AssignmentPattern p | Param.RestElement p => complete p
  | Param.ObjectPattern entries | Param.ArrayPattern entries =>
      forallb complete' entries
  end.

(** ** Stack traces (lines 18-30) *)

(** A frame of a structured stack trace, by the three members
    [Error.prepareStackTrace] reads: [getFileName()], [getFunctionName()]
    ([None] for [null] or [undefined]) and the text [join] makes of it. *)
Record CallSite := {
  getFileName : option jsstring;
  getFunctionName : option jsstring;
  callSiteText : jsstring;
}.

(** [l.findIndex(p)]: the first index at which [p] holds, or [-1]. *)
Fixpoint findIndex {A} (p : A → bool) (l : list A) : Z :=
  match l with
  | [] => (-1)%Z
  | a :: l' =>
      if p a then 0%Z
      else
        let later := findIndex p l' in
        if (later <? 0)%Z then (-1)%Z else (later + 1)%Z
  end.

(** [(f) => !f.getFileName() && !f.getFunctionName()] *)
Definition nameless (f : CallSite) : bool :=
  negb (truthy_string (getFileName f)) && negb (truthy_string (getFunctionName f)).

(** The separator of line 29: a line feed, four blanks and [at]. *)
Definition at_separator : jsstring := [10%N] ++ js "    at ".

(** Lines 19-30; [err] is the text [`${err}`]. *)
Definition prepareStackTrace (err : jsstring) (frames : list CallSite) : jsstring :=
  let cut := (findIndex nameless frames + 1)%Z in
  let frames := take (Z.to_nat cut) frames in
  if bool_decide (length frames = 0) then err
  else err ++ at_separator ++ join at_separator (callSiteText <$> frames).

(** ** The global object (lines 16 and 379-447)

    The properties the module's top level installs on [global], and what
    reading and assigning them does.  Values are the engine's; [require] is
    Node's and [held] is the value a slot of [global.REPL] holds. *)

Class JSValues := {
  V : Type;
  require : jsstring → V;
  held : option RemoteObject → V;
}.

Module Global.
Section Global.
Context {values : JSValues}.

(** The four getter functions of the source: the one that loads a library
    on first use (lines 386-397), the one installed in its place (line 390),
    and the two that read [global.REPL] (lines 432 and 441). *)
Inductive getter :=
  | LoadLibrary (name : jsstring)
  | Library (lib : V)
  | Last
  | LastError.

(** The setter functions ([setReal] of lines 380-383, and lines 433-436 and
    442-445): [delete global[name]; global[name] = v]. *)
Inductive setter :=
  | SetReal (name : jsstring).

(** A property of [global]; all of them are configurable, and data
    properties writable. *)
Inductive property :=
  | Data (value : V) (enumerable : bool)
  | Accessor (get : getter) (set : setter) (enumerable : bool).

(** [global]'s own properties, and the names [require] was called with,
    oldest first. *)
Record state := {
  properties : gmap jsstring property;
  required : list jsstring;
}.

(** [Object.defineProperty(global, name, descriptor)] *)
Definition defineProperty (name : jsstring) (p : property) (g : state) : state :=
  {| properties := <[name := p]> (properties g); required := required g |}.

(** [delete global[name]] *)
Definition deleteProperty (name : jsstring) (g : state) : state :=
  {| properties := delete name (properties g); required := required g |}.

(** [global[name]], read; [None] is [undefined], for a missing property. *)
Definition read (name : jsstring) (repl : REPL.state) (g : state) : option V * state :=
  match properties g !! name with
  | None => (None, g)
  | Some (Data value _) => (Some value, g)
  | Some (Accessor get _ _) =>
      match get with
      | LoadLibrary name =>
          let lib := require name in
          let g := {| properties := properties g; required := required g ++ [name] |} in
          let g := deleteProperty name g in
          let g := defineProperty name (Accessor (Library lib) (SetReal name) false) g in
          (Some lib, g)
      | Library lib => (Some lib, g)
      | Last => (Some (held (REPL.last repl)), g)
      | LastError => (Some (held (REPL.lastError repl)), g)
      end
  end.

(** [global[name] = v] on a property that is missing or a data property. *)
Definition assignData (name : jsstring) (v : V) (g : state) : state :=
  match properties g !! name with
  | Some (Data _ enumerable) => defineProperty name (Data v enumerable) g
  | _ => defineProperty name (Data v true) g
  end.

(** [global[name] = v] *)
Definition assign (name : jsstring) (v : V) (g : state) : state :=
  match properties g !! name with
  | Some (Accessor _ (SetReal target) _) => assignData target v (deleteProperty target g)
  | _ => assignData name v g
  end.

(** Line 16: the library names that get a global. *)
Definition builtinLibs (builtinModules : list jsstring) : list jsstring :=
  List.filter (λ x, negb (startsWith x (js "_") || includes x (js "/")))
    builtinModules.

(** Lines 385-401, for one name. *)
Definition defineLazy (name : jsstring) (g : state) : state :=
  defineProperty name (Accessor (LoadLibrary name) (SetReal name) false) g.

(** [process.cwd()] of lines 405 and 407 reads [global.process]; the call
    of [cwd] is Node's and leaves [global] alone.  [global.REPL] is assigned
    only later (line 411). *)
Definition readProcess (g : state) : state :=
  (read (js "process") REPL.initial g).2.

(** Lines 379-447: the libraries, then [module] and [require] (each after a
    call of [process.cwd()]) and [REPL], then the accessors [_] and [_err].
    This is the state the top level leaves when [process.cwd()] returns; on
    a global object without [process] line 405 throws instead. *)
Definition startup (builtinModules : list jsstring) (module require' REPL' : V)
    (g : state) : state :=
  let g := foldl (λ g name, defineLazy name g) g (builtinLibs builtinModules) in
  let g := readProcess g in
  let g := assign (js "module") module g in
  let g := readProcess g in
  let g := assign (js "require") require' g in
  let g := assign (js "REPL") REPL' g in
  let g := defineProperty (js "_") (Accessor Last (SetReal (js "_")) false) g in
  defineProperty (js "_err") (Accessor LastError (SetReal (js "_err")) false) g.

(** The property [name], when it is an accessor, has the setter that
    deletes and assigns [name] itself, as every accessor the source installs
    has. *)
Definition ownSetter (name : jsstring) (g : state) : Prop :=
  ∀ get target e,
    properties g !! name = Some (Accessor get (SetReal target) e) → target = name.

(** The names lines 404-447 assign or define after the libraries. *)
Definition reserved : list jsstring :=
  [js "module"; js "require"; js "REPL"; js "_"; js "_err"].

(** [global.process] can be read when the set-up starts: [process] is a
    builtin library, which gets its global at lines 379-402, or [global]
    has it as a data property. *)
Definition hasProcess (builtinModules : list jsstring) (g : state) : Prop :=
  js "process" ∈ builtinModules
  ∨ ∃ v e, properties g !! js "process" = Some (Data v e).

(** Reading [global.process] loads nothing any more: it is a data property,
    or the accessor of the loaded library. *)
Definition processLoaded (g : state) : Prop :=
  (∃ v e, properties g !! js "process" = Some (Data v e))
  ∨ ∃ lib e, properties g !! js "process"
             = Some (Accessor (Library lib) (SetReal (js "process")) e).

(** [n] reads of [global[name]] in a row; the value of the last one. *)
Fixpoint readTimes (n : nat) (name : jsstring) (repl : REPL.state) (g : state)
    : option V * state :=
  match n with
  | 0 => (None, g)
  | 1 => read name repl g
  | S n => readTimes n name repl (read name repl g).2
  end.
End Global.
End Global.

(** ** The earlier evaluator (class [REPL], lines 483-533)

    The file also holds the evaluator the engine replaced: it runs the text
    in the REPL's own context with [vm.Script] instead of going through the
    inspector. *)

Module Legacy.

(** How running a script ends: with a value, or with a thrown value, of
    which [eval] asks whether it is an instance of [SyntaxError]. *)
Inductive completion (Value : Type) :=
  | Normal (value : Value)
  | Throw (err : Value) (instanceofSyntaxError : bool).
Arguments Normal {Value} value.
Arguments Throw {Value} err instanceofSyntaxError.

(** [evil] of lines 484-490 runs a script in this context: [Context] is
    everything a script can read and change. *)
Class VM := {
  Context : Type;
  Value : Type;
  evil : jsstring → Context → completion Value * Context;
}.

(** What [.] does not match: the line terminators. *)
Definition is_line_terminator (c : N) : bool :=
  bool_decide (c ∈ [10; 13; 8232; 8233]%N).

(** [/^\s*\{.*?\}\s*$/.test(code)]: the first character that is not white
    space is an opening brace, the last one a closing brace, they are not
    the same character, and no line terminator stands between them. *)
Definition test_braces (code : jsstring) : bool :=
  match trim code with
  | first :: rest =>
      bool_decide (first = 123%N)
      && match reverse rest with
         | last :: between =>
             bool_decide (last = 125%N)
             && forallb (λ c, negb (is_line_terminator c)) between
         | [] => false
         end
  | [] => false
  end.

Section Legacy.
Context {vm : VM}.

(** The context and the scripts run so far, oldest first. *)
Record world := {
  context : Context;
  scripts : list jsstring;
}.

Definition run (script : jsstring) (w : world) : completion Value * world :=
  let '(c, context') := evil script (context w) in
  (c, {| context := context'; scripts := scripts w ++ [script] |}).

(** Lines 513-523. *)
Definition eval (code : jsstring) (w : world) : completion Value * world :=
  let wrap := test_braces code in
  match run (if wrap then js "(" ++ code ++ js ")" else code) w with
  | (Normal value, w') => (Normal value, w')
  | (Throw err instanceofSyntaxError, w') =>
      if wrap && instanceofSyntaxError then run code w'
      else (Throw err instanceofSyntaxError, w')
  end.
End Legacy.

(** The shape the regular expression of line 514 describes. *)
Definition braces_on_one_line (code : jsstring) : Prop :=
  ∃ ws1 between ws2,
    all_whitespace ws1 ∧ all_whitespace ws2
    ∧ Forall (λ c, is_line_terminator c = false) between
    ∧ code = ws1 ++ js "{" ++ between ++ js "}" ++ ws2.
End Legacy.

(** ** More vocabulary *)

Section MoreRequests.
Context {engine : JSEngine} {host : Host}.

(** The best-effort request for [code], already disambiguated. *)
Definition speculativeRequest (expression : jsstring) : EvaluateParams :=
  {| expression := expression;
     generatePreview := true;
     awaitPromise := false;
     silent := true;
     throwOnSideEffect := true;
     timeout := Some 500%N;
     executionContextId := mainContextId |}.

(** The request that evaluates the part of the buffer a span covers. *)
Definition spanRequest (buffer : jsstring) (span : Span) : EvaluateParams :=
  speculativeRequest
    (wrapObjectLiteralExpressionIfNeeded (slice buffer (start span) (end_ span))).

(** The signature cache of [w'] is that of [w]. *)
Definition same_cache (w w' : World) : Prop :=
  functionCompletionCache w' = functionCompletionCache w.

(** Every handle the cache of [w] has tokens for, the cache of [w'] has
    tokens for. *)
Definition cache_grows (w w' : World) : Prop :=
  dom (functionCompletionCache w) ⊆ dom (functionCompletionCache w').
End MoreRequests.

(** A frame that has a file name or a function name. *)
Definition named (f : CallSite) : Prop := nameless f = false.

(** The text of a trace that shows the frames [kept]. *)
Definition traceOf (err : jsstring) (kept : list CallSite) : jsstring :=
  err ++ at_separator ++ join at_separator (callSiteText <$> kept).

(** ** A second concrete environment

    The environment of [Demo] with a function [f] in the target, declared
    as [function f(a, b = 1, ...rest) {}], and a loose parser that knows a
    few more buffers. *)

Module Demo2.

Definition f : RemoteObject :=
  {| type := js "function"; subtype := None; className := Some (js "Function");
     description := Some (js "function f(a, b = 1, ...rest) {}");
     objectId := Some (js "3"); value := None |}.

Definition evaluate (p : EvaluateParams) : EvaluateReturn :=
  if bool_decide (expression p = js "f") then Demo.success f
  else Demo.evaluate p.

#[local] Instance host : Host := {|
  Target := ();
  host_evaluate p _ t := (Returned (evaluate p), t);
  host_getProperties id t := (Demo.properties id, t);
  host_globalLexicalScopeNames t := (Thrown ProtocolError, t);
  host_globalOwnPropertyNames _ := [js "Object"; js "Math"; js "a"; js "f"];
  host_callFunctionOn := @host_callFunctionOn Demo.host;
  mainContextId := 1%N;
  util_inspect := @util_inspect Demo.host;
  util_inspect_value := @util_inspect_value Demo.host;
|}.

(** The same target, with values whose inspection hook throws. *)
Definition hooked : Host := {|
  Target := ();
  host_evaluate := @host_evaluate host;
  host_getProperties := @host_getProperties host;
  host_globalLexicalScopeNames := @host_globalLexicalScopeNames host;
  host_globalOwnPropertyNames := @host_globalOwnPropertyNames host;
  host_callFunctionOn := @host_callFunctionOn host;
  mainContextId := 1%N;
  util_inspect _ _ t := (Thrown TypeError, t);
  util_inspect_value := @util_inspect_value host;
|}.

(** The same target, refusing every [Runtime.callFunctionOn]. *)
Definition refusing : Host := {|
  Target := ();
  host_evaluate := @host_evaluate host;
  host_getProperties := @host_getProperties host;
  host_globalLexicalScopeNames := @host_globalLexicalScopeNames host;
  host_globalOwnPropertyNames := @host_globalOwnPropertyNames host;
  host_callFunctionOn _ _ _ t := (Thrown ProtocolError, t);
  mainContextId := 1%N;
  util_inspect := @util_inspect host;
  util_inspect_value := @util_inspect_value host;
|}.

Definition hooked_world : World (host := hooked) :=
  {| target := (() : Target (Host := hooked)); repl := REPL.initial;
     functionCompletionCache := ∅; calls := [] |}.

Definition refusing_world : World (host := refusing) :=
  {| target := (() : Target (Host := refusing)); repl := REPL.initial;
     functionCompletionCache := ∅; calls := [] |}.

Definition call (to arguments_length : nat) : Statement (engine := Demo.engine) :=
  ExpressionStatement
    (CallExpression {| callee_span := {| start := 0; end_ := to |};
                       callee_object := None |} arguments_length).

Definition member (to : nat) (property : jsstring) : Statement (engine := Demo.engine) :=
  ExpressionStatement
    (MemberExpression {| start := 0; end_ := to |} false (PropertyIdentifier property)).

Definition loose (buffer : jsstring) : list (Statement (engine := Demo.engine)) :=
  if bool_decide (buffer = js "f(") then [call 1 0]
  else if bool_decide (buffer = js "f(1, ") then [call 1 1]
  else if bool_decide (buffer = js "f(1)") then [call 1 1]
  else if bool_decide (buffer = js "nope(") then [call 4 0]
  else if bool_decide (buffer = js "nope.x") then [member 4 (js "x")]
  else if bool_decide (buffer = js "Math") then [ExpressionStatement (Identifier (js "Math"))]
  else if bool_decide (buffer = js "Math.") then [member 4 [10006%N]]
  else if bool_decide (buffer = js "Math.max") then [member 4 (js "max")]
  else if bool_decide (buffer = js "let x") then [OtherStatement None]
  else if bool_decide (buffer = js " ") then []
  else Demo.loose buffer.

#[local] Instance acorn : Acorn (engine := Demo.engine) := {|
  parseDammit := loose;
  acorn_parse := Demo.strict;
|}.


Definition world : World := {|
  target := (); repl := REPL.initial;
  functionCompletionCache := ∅; calls := [] |}.

(** The callee of [f(], its parameters, the receiver of [Math.] and its
    properties. *)
Definition f_callee : Callee :=
  {| callee_span := {| start := 0; end_ := 1 |}; callee_object := None |}.

Definition f_params : list Param.node :=
  [Param.Identifier (js "a");
   Param.AssignmentPattern (Param.Identifier (js "b"));
   Param.RestElement (Param.Identifier (js "rest"))].

Definition Math_span : Span := {| start := 0; end_ := 4 |}.

Definition Math_properties : list PropertyDescriptor :=
  [Demo.property "max" true; Demo.property "min" true; Demo.property "PI" true;
   Demo.property "toString" false].

(** The world in which the signature of [f] is already in the cache. *)
Definition cached : World := {|
  target := (); repl := REPL.initial;
  functionCompletionCache :=
    {[ Some (js "3") := [js "a"; js "?b"; js "...rest"] ]};
  calls := [] |}.

(** What [processTopLevelAwait] makes of [await 1]. *)
Definition awaited (line : jsstring) : option jsstring :=
  if bool_decide (line = js "await 1") then Some (js "(async () => { return (await 1) })()")
  else None.

(** Values for the global object: a library is its name, a slot's value is
    the slot's content. *)
Inductive value :=
  | Exports (name : jsstring)
  | Held (v : option RemoteObject)
  | Object (name : jsstring).

#[local] Instance values : JSValues := {|
  V := value; require := Exports; held := Held;
|}.

Definition builtinModules : list jsstring :=
  [js "_stream_readable"; js "fs"; js "fs/promises"; js "module"; js "path";
   js "process"].

(** A script runner for the earlier evaluator: an object literal in
    parentheses is an object, a block with a declaration is a syntax error
    in parentheses and runs as a block. *)
Definition script (text : jsstring) : Legacy.completion RemoteObject :=
  if bool_decide (text = js "({a: 1})") then Legacy.Normal (Demo.object "Object" "4")
  else if bool_decide (text = js "({ let x = 1 })") then
    Legacy.Throw (Demo.error "SyntaxError" "SyntaxError: Unexpected identifier" "5") true
  else if bool_decide (text = js "nope") then
    Legacy.Throw (Demo.error "ReferenceError" "ReferenceError: nope is not defined" "8")
      false
  else Legacy.Normal Demo.undefined.

#[local] Instance vm : Legacy.VM := {|
  Legacy.Context := ();
  Legacy.Value := RemoteObject;
  Legacy.evil text c := (script text, c);
|}.

Definition legacy_world : Legacy.world :=
  {| Legacy.context := (); Legacy.scripts := [] |}.

Definition global : Global.state :=
  Global.startup builtinModules (Object (js "module")) (Object (js "require"))
    (Object (js "REPL"))
    {| Global.properties := ∅; Global.required := [] |}.

End Demo2.

(** * Properties *)

(** ** Strings *)

Section StringFacts.
Implicit Types s p ws : jsstring.

Example js_await : js "await" = [97; 119; 97; 105; 116]%N.
Proof. reflexivity. Qed.

Example trim_both_ends : trim (js "  f(a,  ") = js "f(a,".
Proof. reflexivity. Qed.

Example lastIndexOf_last_comma : lastIndexOf (js "f(a, b,  ") (js ",") = 6%Z.
Proof. reflexivity. Qed.

Example lastIndexOf_no_comma : lastIndexOf (js "f(a") (js ",") = (-1)%Z.
Proof. reflexivity. Qed.

Example includes_await : includes (js "x = await f()") (js "await") = true.
Proof. reflexivity. Qed.

Example slice_callee : slice (js "Math.max(1, ") 0 8 = js "Math.max".
Proof. reflexivity. Qed.

Example join_tokens :
  join (js ", ") [js "a"; js "?b"; js "...rest"] = js "a, ?b, ...rest".
Proof. reflexivity. Qed.

Example decimal_1024 : decimal 1024 = js "1024".
Proof. reflexivity. Qed.

Lemma startsWith_true s p : startsWith s p = true ↔ ∃ r, s = p ++ r.
Proof. unfold startsWith. rewrite bool_decide_eq_true. reflexivity. Qed.

Lemma endsWith_true s p : endsWith s p = true ↔ ∃ r, s = r ++ p.
Proof. unfold endsWith. rewrite bool_decide_eq_true. reflexivity. Qed.

Lemma trimStart_whitespace ws s :
  all_whitespace ws → trimStart (ws ++ s) = trimStart s.
Proof. induction 1 as [|c ws Hc _ IH]; simpl; [done|]. by rewrite Hc. Qed.

Lemma trimStart_visible c s :
  is_whitespace c = false → trimStart (c :: s) = c :: s.
Proof. intros Hc. simpl. by rewrite Hc. Qed.

Lemma trimStart_app_visible pre c post :
  is_whitespace c = false →
  trimStart (pre ++ c :: post) = trimStart pre ++ c :: post.
Proof.
  intros Hc. induction pre as [|a pre IH]; simpl.
  - by rewrite Hc.
  - destruct (is_whitespace a); [exact IH | done].
Qed.

(** What [trimStart] removes is white space, and what it leaves does not
    begin with white space. *)
Lemma trimStart_split s :
  ∃ ws, all_whitespace ws ∧ s = ws ++ trimStart s
        ∧ match trimStart s with c :: _ => is_whitespace c = false | [] => True end.
Proof.
  induction s as [|a s (ws & Hws & Hs & Hhd)]; simpl.
  - exists []. split_and!; [apply Forall_nil_2 | done..].
  - destruct (is_whitespace a) eqn:Ha.
    + exists (a :: ws). split_and!; [by constructor | simpl; by f_equal | done].
    + exists []. split_and!; [apply Forall_nil_2 | done..].
Qed.

Lemma all_whitespace_reverse ws : all_whitespace ws → all_whitespace (reverse ws).
Proof. unfold all_whitespace. rewrite !Forall_forall. intros Hws c Hc.
       apply Hws. by apply elem_of_reverse. Qed.

Lemma trimEnd_whitespace s ws :
  all_whitespace ws → trimEnd (s ++ ws) = trimEnd s.
Proof.
  intros Hws. unfold trimEnd. rewrite reverse_app.
  by rewrite trimStart_whitespace by by apply all_whitespace_reverse.
Qed.

Lemma trimEnd_visible s c :
  is_whitespace c = false → trimEnd (s ++ [c]) = s ++ [c].
Proof.
  intros Hc. unfold trimEnd. rewrite reverse_app. simpl.
  rewrite Hc. change (c :: reverse s) with (reverse [c] ++ reverse s).
  by rewrite <- reverse_app, reverse_involutive.
Qed.

Lemma trimEnd_split s :
  ∃ ws, all_whitespace ws ∧ s = trimEnd s ++ ws.
Proof.
  destruct (trimStart_split (reverse s)) as (ws & Hws & Hs & _).
  exists (reverse ws). split; [by apply all_whitespace_reverse|].
  unfold trimEnd. rewrite <- reverse_app, <- Hs. by rewrite reverse_involutive.
Qed.

(** [trim] removes white space at both ends and nothing else. *)
Lemma trim_split s :
  ∃ ws1 ws2, all_whitespace ws1 ∧ all_whitespace ws2 ∧ s = ws1 ++ trim s ++ ws2.
Proof.
  destruct (trimStart_split s) as (ws1 & H1 & Hs & _).
  destruct (trimEnd_split (trimStart s)) as (ws2 & H2 & Ht).
  exists ws1, ws2. split_and!; [done..|].
  unfold trim. by rewrite <- Ht.
Qed.

Lemma comma_visible : is_whitespace 44 = false.
Proof. reflexivity. Qed.

(** A buffer that ends in a comma followed by white space: trimmed, it
    ends in the comma. *)
Lemma trim_comma_whitespace pre ws :
  all_whitespace ws → trim (pre ++ js "," ++ ws) = trimStart pre ++ js ",".
Proof.
  intros Hws. unfold trim. change (js ",") with [44%N]. simpl.
  rewrite trimStart_app_visible by apply comma_visible.
  change (trimStart pre ++ 44%N :: ws) with (trimStart pre ++ [44%N] ++ ws).
  rewrite (assoc (++)), trimEnd_whitespace by done.
  by apply trimEnd_visible, comma_visible.
Qed.

Lemma lastIndexOf_from_absent i s c :
  c ∉ s → lastIndexOf_from i s [c] = (-1)%Z.
Proof.
  revert i. induction s as [|a s IH]; intros i Hc; [done|].
  - cbn [lastIndexOf_from]. rewrite IH by set_solver. cbn [Z.leb Z.compare].
    unfold startsWith. rewrite bool_decide_eq_false_2; [done|].
    intros [r Hr]. simplify_eq. set_solver.
Qed.

Lemma lastIndexOf_from_last i pre c post :
  c ∉ post →
  lastIndexOf_from i (pre ++ c :: post) [c] = Z.of_nat (i + length pre).
Proof.
  intros Hc. revert i. induction pre as [|a pre IH]; intros i;
    cbn [app lastIndexOf_from].
  - rewrite lastIndexOf_from_absent by done. cbn [Z.leb Z.compare].
    unfold startsWith. rewrite bool_decide_eq_true_2; [simpl; f_equal; lia|].
    by exists post.
  - rewrite IH. destruct (Z.leb_spec 0 (Z.of_nat (S i + length pre))); [|lia].
    simpl. f_equal. lia.
Qed.

Lemma whitespace_no_comma ws : all_whitespace ws → 44%N ∉ ws.
Proof.
  unfold all_whitespace. rewrite Forall_forall. intros Hws Hc.
  apply Hws in Hc. discriminate.
Qed.

(** Every code unit of a decimal numeral is a digit. *)
Lemma digits_are_digits d c : c ∈ digits d → (48 ≤ c ≤ 57)%N.
Proof.
  induction d; simpl; intros Hc; [by apply elem_of_nil in Hc|..];
    apply elem_of_cons in Hc as [->|Hc]; auto; lia.
Qed.

Lemma decimal_no_quote n : quote ∉ decimal n.
Proof. intros Hq. apply digits_are_digits in Hq. unfold quote in Hq. lia. Qed.
End StringFacts.

(** ** Object-literal disambiguation *)

Section WrapFacts.
Context {engine : JSEngine}.

Lemma test_leading_brace_spec code :
  test_leading_brace code = true ↔ leading_brace code.
Proof.
  unfold test_leading_brace, leading_brace. rewrite startsWith_true. split.
  - intros [rest Hrest].
    destruct (trimStart_split code) as (ws & Hws & Hcode & _).
    exists ws, rest. split; [done|]. by rewrite <- Hrest.
  - intros (ws & rest & Hws & ->). exists rest.
    rewrite trimStart_whitespace by done. by apply trimStart_visible.
Qed.

Lemma test_trailing_brace_spec code :
  test_trailing_brace code = true ↔ trailing_brace code.
Proof.
  unfold test_trailing_brace, trailing_brace. rewrite endsWith_true. split.
  - intros [rest Hrest].
    destruct (trimEnd_split code) as (ws & Hws & Hcode).
    exists rest, ws. split; [done|]. by rewrite (assoc (++)), <- Hrest.
  - intros (rest & ws & Hws & ->). exists rest.
    rewrite (assoc (++)), trimEnd_whitespace by done.
    by apply trimEnd_visible.
Qed.

(** A text that literally begins and ends with braces has the shape the
    regular expressions test. *)
Lemma begins_and_ends_brace_shaped code :
  begins_and_ends_with_braces code → leading_brace code ∧ trailing_brace code.
Proof.
  intros [[r1 H1] [r2 H2]]. split.
  - exists [], r1. split; [apply Forall_nil_2 | done].
  - exists r2, []. split; [apply Forall_nil_2 | by rewrite app_nil_r].
Qed.

(** C5 (amended): a text whose first non-blank character is an opening
    brace and whose last non-blank character is a closing brace is returned
    in parentheses when it parses as a return-expression and the
    parenthesized form parses too; every other text is returned as it is. *)
Theorem wrapObjectLiteralExpressionIfNeeded_spec (code : jsstring) :
  let wrappable :=
    leading_brace code ∧ trailing_brace code
    ∧ AsyncFunction_parses (as_return code) = true
    ∧ AsyncFunction_parses (parenthesized code) = true in
  (wrappable ∧ wrapObjectLiteralExpressionIfNeeded code = parenthesized code)
  ∨ (¬ wrappable ∧ wrapObjectLiteralExpressionIfNeeded code = code).
Proof.
  intros wrappable. subst wrappable.
  unfold wrapObjectLiteralExpressionIfNeeded.
  fold (as_return code) (parenthesized code).
  rewrite <- test_leading_brace_spec, <- test_trailing_brace_spec.
  destruct (test_leading_brace code), (test_trailing_brace code),
    (AsyncFunction_parses (as_return code)),
    (AsyncFunction_parses (parenthesized code)); simpl;
    first [ by left | right; split; [intros (?&?&?&?); discriminate | done] ].
Qed.

(** The part of C5 that holds as stated: on a text that begins with an
    opening brace and ends with a closing one, the result is decided by the
    two syntax checks alone. *)
Lemma wrapObjectLiteralExpressionIfNeeded_braces (code : jsstring) :
  begins_and_ends_with_braces code →
  wrapObjectLiteralExpressionIfNeeded code =
    if AsyncFunction_parses (as_return code)
       && AsyncFunction_parses (parenthesized code)
    then parenthesized code else code.
Proof.
  intros [Hl Ht]%begins_and_ends_brace_shaped.
  apply test_leading_brace_spec in Hl. apply test_trailing_brace_spec in Ht.
  unfold wrapObjectLiteralExpressionIfNeeded.
  fold (as_return code) (parenthesized code). rewrite Hl, Ht. simpl.
  by destruct (AsyncFunction_parses (as_return code)),
       (AsyncFunction_parses (parenthesized code)).
Qed.
End WrapFacts.

(** C5 as stated fails: a text that begins with a blank is not of the shape
    "begins with an opening brace and ends with a closing brace", and is
    wrapped all the same. *)
Lemma wrapObjectLiteralExpressionIfNeeded_padded :
  ¬ begins_and_ends_with_braces (js " {} ")
  ∧ @wrapObjectLiteralExpressionIfNeeded Demo.engine (js " {} ") = js "( {} )"
  ∧ js "( {} )" ≠ js " {} ".
Proof.
  split_and!; [|by vm_compute|discriminate].
  intros [[rest Hrest] _]. discriminate.
Qed.

(** ** Parameter suggestions: [finishParams] *)

Section FinishParamsFacts.
Implicit Types (buffer pre ws : jsstring) (params : list jsstring).

Lemma endsWith_trim_comma buffer :
  endsWith (trim buffer) (js ",") = true →
  ∃ pre ws, all_whitespace ws ∧ buffer = pre ++ js "," ++ ws.
Proof.
  intros [r Hr]%endsWith_true.
  destruct (trim_split buffer) as (ws1 & ws2 & _ & Hws2 & Hbuffer).
  exists (ws1 ++ r), ws2. split; [done|].
  rewrite Hbuffer at 1. rewrite Hr. by rewrite <- !(assoc (++)).
Qed.

Lemma spaces_after_comma pre ws :
  all_whitespace ws →
  (Z.of_nat (length (pre ++ js "," ++ ws))
   - (lastIndexOf (pre ++ js "," ++ ws) (js ",") + 1))%Z
  = Z.of_nat (length ws).
Proof.
  intros Hws. unfold lastIndexOf. change (js ",") with [44%N].
  change (pre ++ [44%N] ++ ws) with (pre ++ 44%N :: ws).
  rewrite lastIndexOf_from_last by by apply whitespace_no_comma.
  rewrite length_app. simpl. lia.
Qed.

(** C8 (amended): there is no suggestion when the argument count equals
    the parameter count.  With at least one argument typed and a parameter
    count different from the argument count, the suggestion is the remaining
    tokens joined by ", ", with no separator in front when the buffer ends
    in a comma followed by white space, a single space in front when the
    buffer ends in the comma itself, and a comma and a space in front
    otherwise. *)
Theorem finishParams_separator (arguments_length : nat) buffer params :
  let remaining := join (js ", ") (drop arguments_length params) in
  (arguments_length = length params →
     finishParams arguments_length buffer params = None)
  ∧ (0 < arguments_length → arguments_length ≠ length params →
     (∀ pre ws, all_whitespace ws → ws ≠ [] → buffer = pre ++ js "," ++ ws →
        finishParams arguments_length buffer params = Some remaining)
     ∧ (∀ pre, buffer = pre ++ js "," →
          finishParams arguments_length buffer params = Some (js " " ++ remaining))
     ∧ ((∀ pre ws, all_whitespace ws → buffer ≠ pre ++ js "," ++ ws) →
          finishParams arguments_length buffer params
          = Some (js ", " ++ remaining))).
Proof.
  intros remaining. unfold finishParams. fold remaining. split.
  { intros Heq. by rewrite bool_decide_eq_true_2. }
  intros Hpos Hne.
  rewrite bool_decide_eq_false_2 by done.
  destruct (Nat.ltb_spec 0 arguments_length); [|lia].
  split_and!.
  - intros pre ws Hws Hnil ->.
    rewrite trim_comma_whitespace by done.
    rewrite (proj2 (endsWith_true _ _)) by by eexists.
    rewrite spaces_after_comma by done.
    destruct ws; [done|]. simpl length.
    by destruct (Z.ltb_spec 0 (Z.of_nat (S (length ws)))); [|lia].
  - intros pre ->.
    replace (pre ++ js ",") with (pre ++ js "," ++ []) by by rewrite app_nil_r.
    rewrite trim_comma_whitespace by apply Forall_nil_2.
    rewrite (proj2 (endsWith_true _ _)) by by eexists.
    rewrite spaces_after_comma by apply Forall_nil_2.
    done.
  - intros Hshape.
    destruct (endsWith (trim buffer) (js ",")) eqn:Hends; [|done].
    apply endsWith_trim_comma in Hends as (pre & ws & Hws & Hbuffer).
    by destruct (Hshape pre ws).
Qed.

(** When as many arguments are typed as the function has parameters there
    is no suggestion. *)
Lemma finishParams_complete buffer params :
  finishParams (length params) buffer params = None.
Proof. unfold finishParams. by rewrite bool_decide_eq_true_2. Qed.

(** With no argument typed the remaining tokens are all the tokens, with
    nothing in front. *)
Lemma finishParams_first buffer params :
  params ≠ [] →
  finishParams 0 buffer params = Some (join (js ", ") params).
Proof.
  intros Hne. unfold finishParams.
  rewrite bool_decide_eq_false_2; [done|]. by destruct params.
Qed.
End FinishParamsFacts.

(** C8 as stated fails: the buffer [f(a,] ends in a comma that no white
    space follows, and the suggestion gets a space in front, not a comma and
    a space. *)
Lemma finishParams_after_bare_comma :
  finishParams 1 (js "f(a,") [js "a"; js "b"] = Some (js " b")
  ∧ Some (js " b") ≠ Some (js ", " ++ join (js ", ") (drop 1 [js "a"; js "b"])).
Proof. split; [by vm_compute | discriminate]. Qed.

Lemma finishParams_separator_witness :
  finishParams 1 (js "f(a, ") [js "a"; js "b"] = Some (js "b")
  ∧ finishParams 1 (js "f(a,") [js "a"; js "b"] = Some (js " b")
  ∧ finishParams 1 (js "f(a") [js "a"; js "b"] = Some (js ", b")
  ∧ finishParams 1 (js "f(a") [js "a"] = None.
Proof.
  split_and!.
  - apply (proj2 (finishParams_separator 1 (js "f(a, ") [js "a"; js "b"])
             ltac:(lia) ltac:(simpl; lia))
      with (pre := js "f(a") (ws := js " ");
      [by repeat constructor | done | done].
  - by apply (proj2 (finishParams_separator 1 (js "f(a,") [js "a"; js "b"])
                ltac:(lia) ltac:(simpl; lia))
         with (pre := js "f(a").
  - apply (proj2 (finishParams_separator 1 (js "f(a") [js "a"; js "b"])
             ltac:(lia) ltac:(simpl; lia)).
    intros pre ws _ Hbuffer.
    assert (44%N ∈ js "f(a") as Hin.
    { rewrite Hbuffer. apply elem_of_app. right. by left. }
    by apply (bool_decide_eq_false_1 (44%N ∈ js "f(a")) in Hin.
  - by apply (proj1 (finishParams_separator 1 (js "f(a") [js "a"])).
Defined.

(** ** The monad *)

Section MonadFacts.
Context {host : Host}.

Lemma run_bind {A B} (m : M A) (k : A → M B) w :
  (m ≫= k) w =
    match m w with
    | (Returned a, w') => k a w'
    | (Thrown e, w') => (Thrown e, w')
    end.
Proof. reflexivity. Qed.

Section Keeps.
Context (R : relation World) `{!PreOrder R}.

Lemma keeps_ret {A} (a : A) : keeps R (mret a).
Proof. intros w. simpl. reflexivity. Qed.

Lemma keeps_throw {A} e : keeps R (throw (A := A) e).
Proof. intros w. simpl. reflexivity. Qed.

Lemma keeps_lift {A} (o : Outcome A) : keeps R (lift o).
Proof. intros w. simpl. reflexivity. Qed.

Lemma keeps_get_repl : keeps R get_repl.
Proof. intros w. simpl. reflexivity. Qed.

Lemma keeps_get_target : keeps R get_target.
Proof. intros w. simpl. reflexivity. Qed.

Lemma keeps_bind {A B} (m : M A) (k : A → M B) :
  keeps R m → (∀ a, keeps R (k a)) → keeps R (m ≫= k).
Proof.
  intros Hm Hk w. rewrite run_bind. specialize (Hm w).
  destruct (m w) as [[a|e] w']; simpl in *; [|done].
  etransitivity; [exact Hm | apply Hk].
Qed.

Lemma keeps_try_catch {A} (m : M A) : keeps R m → keeps R (try_catch m).
Proof.
  intros Hm w. specialize (Hm w). unfold try_catch.
  by destruct (m w) as [o w'].
Qed.
End Keeps.

#[export] Instance speculative_step_preorder : PreOrder speculative_step.
Proof.
  split.
  - intros w. split; [done|]. exists []. by rewrite app_nil_r.
  - intros w1 w2 w3 [[Hl12 He12] (n12 & Hc12 & Hn12)] [[Hl23 He23] (n23 & Hc23 & Hn23)].
    split; [split; congruence|].
    exists (n12 ++ n23). split.
    + by rewrite Hc23, Hc12, <- (assoc (++)).
    + by apply Forall_app.
Qed.

Lemma speculative_step_sent c t w :
  speculative_call c → speculative_step w (sent c t w).
Proof. intros Hc. split; [done|]. exists [c]. by split; [|constructor]. Qed.

Lemma keeps_cache_get id : keeps speculative_step (cache_get id).
Proof. intros w. simpl. reflexivity. Qed.

Lemma keeps_cache_set id params : keeps speculative_step (cache_set id params).
Proof. intros w. split; [done|]. exists []. by rewrite app_nil_r. Qed.

Lemma keeps_getProperties id preview :
  keeps speculative_step (Runtime_getProperties id preview).
Proof.
  intros w. unfold Runtime_getProperties.
  destruct (host_getProperties id (target w)) as [o t].
  by apply speculative_step_sent.
Qed.

Lemma keeps_globalLexicalScopeNames :
  keeps speculative_step Runtime_globalLexicalScopeNames.
Proof.
  intros w. unfold Runtime_globalLexicalScopeNames.
  destruct (host_globalLexicalScopeNames (target w)) as [o t].
  by apply speculative_step_sent.
Qed.

Lemma keeps_setInspectTarget r id :
  keeps speculative_step (Runtime_callFunctionOn SetInspectTarget r id).
Proof.
  intros w. unfold Runtime_callFunctionOn.
  destruct (host_callFunctionOn _ _ _ _) as [[[]|e] t];
    (split; [done|]; eexists [_]; by split; [|constructor]).
Qed.

Lemma keeps_inspectWith options value :
  keeps speculative_step (inspectWith options value).
Proof.
  intros w. unfold inspectWith. destruct (util_inspect _ _ _) as [o t].
  split; [done|]. exists []. by rewrite app_nil_r.
Qed.
End MonadFacts.

(** ** The evaluators *)

Ltac keeps_step :=
  lazymatch goal with
  | |- keeps _ (mret _) => apply keeps_ret; apply _
  | |- keeps _ (throw _) => apply keeps_throw; apply _
  | |- keeps _ (lift _) => apply keeps_lift; apply _
  | |- keeps _ get_repl => apply keeps_get_repl; apply _
  | |- keeps _ get_target => apply keeps_get_target; apply _
  | |- keeps _ (try_catch _) => apply keeps_try_catch
  | |- keeps _ (cache_get _) => apply keeps_cache_get
  | |- keeps _ (cache_set _ _) => apply keeps_cache_set
  | |- keeps _ (Runtime_getProperties _ _) => apply keeps_getProperties
  | |- keeps _ Runtime_globalLexicalScopeNames => apply keeps_globalLexicalScopeNames
  | |- keeps _ (Runtime_callFunctionOn SetInspectTarget _ _) =>
      apply keeps_setInspectTarget
  | |- keeps _ (inspectWith _ _) => apply keeps_inspectWith
  | |- keeps _ (_ ≫= _) => apply keeps_bind; [apply _ | | intros ?]
  | |- keeps _ (match ?x with _ => _ end) => destruct x
  end.

Section EngineFacts.
Context {engine : JSEngine} {host : Host} {acorn : Acorn} {modules : Modules}.

(** C3: the request [performEval] sends always asks for a preview; in
    best-effort mode it suppresses side effects and carries the 500 ms
    bound, in direct mode it does neither. *)
Theorem performEval_request (code : jsstring) (awaitPromise bestEffort : bool)
    (w : World) :
  ∃ p, calls (performEval code awaitPromise bestEffort w).2 = calls w ++ [Evaluate p]
       ∧ expression p = wrapObjectLiteralExpressionIfNeeded code
       ∧ Protocol.awaitPromise p = awaitPromise
       ∧ generatePreview p = true
       ∧ silent p = bestEffort
       ∧ throwOnSideEffect p = bestEffort
       ∧ timeout p = (if bestEffort then Some 500%N else None).
Proof.
  unfold performEval, Runtime_evaluate.
  destruct (host_evaluate _ (repl w) (target w)) as [o t].
  eexists. split; [reflexivity|]. by split_and!.
Qed.

(** An evaluation changes the target and the list of requests, not
    [global.REPL] and not the cache. *)
Lemma performEval_world code awaitPromise bestEffort w :
  repl (performEval code awaitPromise bestEffort w).2 = repl w
  ∧ functionCompletionCache (performEval code awaitPromise bestEffort w).2
    = functionCompletionCache w.
Proof.
  unfold performEval, Runtime_evaluate.
  by destruct (host_evaluate _ (repl w) (target w)) as [o t].
Qed.

Lemma keeps_performEval_bestEffort code awaitPromise :
  keeps speculative_step (performEval code awaitPromise true).
Proof.
  intros w. unfold performEval, Runtime_evaluate.
  destruct (host_evaluate _ (repl w) (target w)) as [o t].
  by apply speculative_step_sent.
Qed.

Lemma keeps_oneLineEval source : keeps speculative_step (oneLineEval source).
Proof.
  unfold oneLineEval.
  apply keeps_bind; [apply _ | apply keeps_performEval_bestEffort | intros r].
  repeat keeps_step.
Qed.

Lemma keeps_inlinePreview buffer : keeps speculative_step (inlinePreview buffer).
Proof.
  unfold inlinePreview.
  apply keeps_bind; [apply _ | apply keeps_oneLineEval | intros r].
  repeat keeps_step.
Qed.

Lemma keeps_collectGlobalNames : keeps speculative_step collectGlobalNames.
Proof. unfold collectGlobalNames. repeat keeps_step. Qed.

Lemma keeps_nativeParams f owner name id :
  keeps speculative_step (nativeParams f owner name id).
Proof. unfold nativeParams. repeat keeps_step. Qed.

Ltac keeps_engine :=
  repeat first
    [ apply keeps_performEval_bestEffort
    | apply keeps_inlinePreview
    | apply keeps_collectGlobalNames
    | apply keeps_nativeParams
    | keeps_step ].

Lemma keeps_completeCall buffer callee arguments_length :
  keeps speculative_step (completeCall buffer callee arguments_length).
Proof. unfold completeCall. keeps_engine. Qed.

Lemma keeps_completeMember buffer object computed property :
  keeps speculative_step (completeMember buffer object computed property).
Proof. unfold completeMember. keeps_engine. Qed.

Lemma keeps_finish buffer keys filter :
  keeps speculative_step (finish buffer keys filter).
Proof. unfold finish. keeps_engine. Qed.

Lemma keeps_onAutocomplete buffer : keeps speculative_step (onAutocomplete buffer).
Proof.
  unfold onAutocomplete.
  repeat first
    [ apply keeps_completeCall | apply keeps_completeMember | apply keeps_finish
    | keeps_engine ].
Qed.

(** Writing a slot and rendering it, from the world [w1] on: the request
    is sent; when it fails the slot is as it was and the failure is the
    outcome; when it succeeds the slot holds the value, which is then
    rendered, and a failure to render is the outcome. *)
Lemma store_run (f : FunctionDeclaration) (v : RemoteObject)
    (slot : REPL.state → option RemoteObject) (w1 : World) :
  (∀ s, slot (run_declaration f v s) = Some v) →
  written f v w1
    ((callFunctionOn f v;; s ← inspect slot; mret (Rendered s)) w1).
Proof.
  intros Hslot. unfold written, callFunctionOn, Runtime_callFunctionOn, inspect.
  rewrite run_bind.
  destruct (host_callFunctionOn f v mainContextId (target w1)) as [[[]|e] t2];
    [|done].
  rewrite !run_bind. cbn [get_repl repl]. rewrite Hslot.
  unfold inspectWith. cbn [target].
  by destruct (util_inspect ColorsShowProxy (Some v) t2) as [[text|e] t3].
Qed.

(** What one call of [onLine] does to the world, case by case. *)
Lemma onLine_run (line : jsstring) (w : World) :
  let '(line', awaited) := rewriteAwait line in
  let p := directRequest line' awaited in
  let '(o, t) := host_evaluate p (repl w) (target w) in
  let w1 := sent (Evaluate p) t w in
  match o with
  | Thrown e => onLine line w = (Thrown e, w1)
  | Returned r =>
      match exceptionDetails r with
      | Some details =>
          if isRecoverableError (wrapObjectLiteralExpressionIfNeeded line')
          then onLine line w = (Returned kNeedsAnotherLine, w1)
          else written SetLastError (exception details) w1 (onLine line w)
      | None => written SetLast (result r) w1 (onLine line w)
      end
  end.
Proof.
  unfold onLine. destruct (rewriteAwait line) as [line' awaited].
  rewrite run_bind. unfold performEval, Runtime_evaluate.
  fold (directRequest line' awaited).
  destruct (host_evaluate _ (repl w) (target w)) as [[r|e] t]; [|done].
  destruct (exceptionDetails r) as [details|].
  - destruct (isRecoverableError _); [done|]. by apply store_run.
  - by apply store_run.
Qed.

(** The requests and the slots after a slot has been written from the
    world that [onLine] reaches by its evaluation. *)
Lemma written_after_evaluate (f : FunctionDeclaration) (v : RemoteObject)
    p t (w : World) (run : Outcome LineResult * World) :
  written f v (sent (Evaluate p) t w) run →
  calls run.2 = calls w ++ [Evaluate p; CallFunctionOn f v mainContextId]
  ∧ (repl run.2 = repl w ∨ repl run.2 = run_declaration f v (repl w)).
Proof.
  unfold written. cbn [sent target calls repl].
  destruct (host_callFunctionOn f v mainContextId t) as [[[]|e] t2].
  - destruct (util_inspect ColorsShowProxy (Some v) t2) as [i t3].
    intros (-> & _ & -> & _). split; [by rewrite <- (assoc (++))|by right].
  - intros (-> & _ & _ & -> & _). split; [by rewrite <- (assoc (++))|by left].
Qed.

(** C1: when the direct evaluation of the submitted line produces an
    exception and the recoverable-error predicate holds of the
    disambiguated text of the line, [onLine] returns the continuation
    signal, and [global.REPL] (both slots included) is as it was. *)
Theorem onLine_recoverable (line : jsstring) (w w' : World)
    (evaluateResult : EvaluateReturn) (details : ExceptionDetails) :
  performEval (rewriteAwait line).1 (rewriteAwait line).2 false w
    = (Returned evaluateResult, w') →
  exceptionDetails evaluateResult = Some details →
  isRecoverableError
    (wrapObjectLiteralExpressionIfNeeded (rewriteAwait line).1) = true →
  onLine line w = (Returned kNeedsAnotherLine, w')
  ∧ REPL.last (repl w') = REPL.last (repl w)
  ∧ REPL.lastError (repl w') = REPL.lastError (repl w).
Proof.
  intros Heval Hexc Hrec.
  pose proof (performEval_world (rewriteAwait line).1 (rewriteAwait line).2
                false w) as [Hrepl _].
  rewrite Heval in Hrepl. simpl in Hrepl. rewrite Hrepl. split; [|done].
  unfold onLine. destruct (rewriteAwait line) as [line' awaited]. simpl in *.
  rewrite run_bind, Heval, Hexc, Hrec. done.
Qed.

(** C2: the two speculative paths, [oneLineEval] and [onAutocomplete],
    send only best-effort requests and leave the last-value and last-error
    slots as they were, whatever the buffer and however they end; [onLine]
    either leaves [global.REPL] as it was or writes one slot, with the
    value its direct-mode evaluation produced, after that evaluation. *)
Theorem session_slots_written_by_onLine_only :
  (∀ source w, speculative_step w (oneLineEval source w).2)
  ∧ (∀ buffer w, speculative_step w (onAutocomplete buffer w).2)
  ∧ (∀ line w,
       repl (onLine line w).2 = repl w
       ∨ ∃ p ret t f v,
           host_evaluate p (repl w) (target w) = (Returned ret, t)
           ∧ throwOnSideEffect p = false ∧ timeout p = None
           ∧ (f = SetLast ∧ v = result ret ∧ exceptionDetails ret = None
              ∨ f = SetLastError
                ∧ ∃ details, exceptionDetails ret = Some details
                             ∧ v = exception details)
           ∧ calls (onLine line w).2
             = calls w ++ [Evaluate p; CallFunctionOn f v mainContextId]
           ∧ repl (onLine line w).2 = run_declaration f v (repl w)).
Proof.
  split_and!.
  - intros source w. apply keeps_oneLineEval.
  - intros buffer w. apply keeps_onAutocomplete.
  - intros line w. pose proof (onLine_run line w) as Hrun.
    destruct (rewriteAwait line) as [line' awaited]. simpl in Hrun.
    destruct (host_evaluate _ (repl w) (target w)) as [[r|e] t] eqn:Heval.
    + destruct (exceptionDetails r) as [details|] eqn:Hexc.
      * destruct (isRecoverableError _).
        -- left. by rewrite Hrun.
        -- apply written_after_evaluate in Hrun as [Hcalls [Hrepl|Hrepl]];
             [by left|right].
           exists (directRequest line' awaited), r, t, SetLastError,
             (exception details).
           split_and!; [done..| |done|done]. right. eauto.
      * apply written_after_evaluate in Hrun as [Hcalls [Hrepl|Hrepl]];
          [by left|right].
        exists (directRequest line' awaited), r, t, SetLast, (result r).
        split_and!; [done..| |done|done]. by left.
    + left. by rewrite Hrun.
Qed.

(** C10: a line that does not contain [await] is evaluated as it is
    (after object-literal disambiguation) with [awaitPromise] false, and
    [processTopLevelAwait] has no say in it: replacing it by any other
    function changes nothing. *)
Theorem onLine_without_await (line : jsstring) (w : World) :
  includes line (js "await") = false →
  (∃ rest, calls (onLine line w).2
           = calls w ++ Evaluate (directRequest line false) :: rest)
  ∧ ∀ rewrite,
      onLine (modules := with_processTopLevelAwait rewrite modules) line w
      = onLine line w.
Proof.
  intros Hawait. split.
  - pose proof (onLine_run line w) as Hrun.
    unfold rewriteAwait in Hrun. rewrite Hawait in Hrun. simpl in Hrun.
    destruct (host_evaluate _ (repl w) (target w)) as [[r|e] t].
    + destruct (exceptionDetails r) as [details|].
      * destruct (isRecoverableError _).
        -- exists []. by rewrite Hrun.
        -- apply written_after_evaluate in Hrun as [-> _]. eauto.
      * apply written_after_evaluate in Hrun as [-> _]. eauto.
    + exists []. by rewrite Hrun.
  - intros rewrite. unfold onLine, rewriteAwait. by rewrite Hawait.
Qed.
End EngineFacts.

(** ** Parameter tokens: [paramName] *)

Section ParamInduction.
Variable P : Param.node → Prop.
Hypothesis P_identifier : ∀ name, P (Param.Identifier name).
Hypothesis P_assignment : ∀ p, P p → P (Param.AssignmentPattern p).
Hypothesis P_object :
  ∀ values, Forall (from_option P True) values → P (Param.ObjectPattern values).
Hypothesis P_array :
  ∀ elements, Forall (from_option P True) elements → P (Param.ArrayPattern elements).
Hypothesis P_rest : ∀ p, P p → P (Param.RestElement p).
Hypothesis P_other : P Param.Other.

(** Induction on a parameter, with the hypothesis available for every
    entry of an object or array pattern. *)
Lemma param_nested_ind : ∀ p, P p.
Proof.
  fix IH 1. intros [name|p|values|elements|p|].
  - apply P_identifier.
  - apply P_assignment, IH.
  - apply P_object.
    induction values as [|[q|] values IHvalues]; constructor; simpl; auto.
  - apply P_array.
    induction elements as [|[q|] elements IHelements]; constructor; simpl; auto.
  - apply P_rest, IH.
  - apply P_other.
Qed.
End ParamInduction.

Section ParamNameFacts.

Lemma Forall_impl2 {A} (P Q R : A → Prop) l :
  Forall P l → Forall Q l → (∀ a, P a → Q a → R a) → Forall R l.
Proof.
  intros HP HQ HR. apply (Forall_impl (λ a, P a ∧ Q a)); [|by intros a [??]; apply HR].
  by apply Forall_and.
Qed.

Lemma outcome_map_returned {A B} (f : A → Outcome B) (g : A → B) l :
  Forall (λ a, f a = Returned (g a)) l → outcome_map f l = Returned (g <$> l).
Proof. induction 1 as [|a l Ha _ IH]; simpl; [done|]. by rewrite Ha, IH. Qed.

Lemma outcome_map_returned_inv {A B} (f : A → Outcome B) l bs :
  outcome_map f l = Returned bs → Forall (λ a, ∃ b, f a = Returned b) l.
Proof.
  revert bs. induction l as [|a l IH]; intros bs; simpl; [constructor|].
  destruct (f a) as [b|e] eqn:Ha; simpl; [|done].
  destruct (outcome_map f l) as [bs'|e] eqn:Hl; simpl; [|done].
  intros _. constructor; eauto.
Qed.

(** On a complete parameter [paramName] returns the token the
    specification describes. *)
Lemma paramName_complete (param : Param.node) :
  complete param = true → paramName param = Returned (token param).
Proof.
  induction param as [name|p IH|values IH|elements IH|p IH|]
    using param_nested_ind; simpl; intros Hc;
    try done; try (by rewrite IH).
  - erewrite outcome_map_returned; [done|].
    apply Is_true_true, forallb_True in Hc.
    apply (Forall_impl2 _ _ _ _ IH Hc).
    intros [q|]; simpl; [|done].
    intros Hq Hcq. by apply Hq, Is_true_true.
  - erewrite outcome_map_returned; [done|].
    apply Is_true_true, forallb_True in Hc.
    apply (Forall_impl2 _ _ _ _ IH Hc).
    intros [q|]; simpl; [|done].
    intros Hq Hcq. by apply Hq, Is_true_true.
Qed.

(** [paramName] returns only on complete parameters: a hole or an object
    rest element anywhere makes it throw. *)
Lemma paramName_returned_complete (param : Param.node) s :
  paramName param = Returned s → complete param = true.
Proof.
  revert s.
  induction param as [name|p IH|values IH|elements IH|p IH|]
    using param_nested_ind; simpl; intros s Hs; try done.
  - destruct (paramName p) eqn:Hp; [eauto|done].
  - destruct (outcome_map _ values) as [l|] eqn:Hl; [|done].
    apply outcome_map_returned_inv in Hl.
    apply Is_true_true, forallb_True.
    apply (Forall_impl2 _ _ _ _ IH Hl).
    intros [q|]; simpl; intros Hq [b Hb]; [|done].
    apply Is_true_true. eauto.
  - destruct (outcome_map _ elements) as [l|] eqn:Hl; [|done].
    apply outcome_map_returned_inv in Hl.
    apply Is_true_true, forallb_True.
    apply (Forall_impl2 _ _ _ _ IH Hl).
    intros [q|]; simpl; intros Hq [b Hb]; [|done].
    apply Is_true_true. eauto.
  - destruct (paramName p) eqn:Hp; [eauto|done].
Qed.

(** The only exception [paramName] throws is the [TypeError] of reading
    [type] of [null] or [undefined]. *)
Lemma paramName_thrown (param : Param.node) e :
  paramName param = Thrown e → e = TypeError.
Proof.
  revert e.
  induction param as [name|p IH|values IH|elements IH|p IH|]
    using param_nested_ind; simpl; intros e He; try done.
  - destruct (paramName p) eqn:Hp; [done|]. simplify_eq/=. eauto.
  - destruct (outcome_map _ values) as [l|e'] eqn:Hl; [done|].
    simplify_eq/=. clear -IH Hl.
    induction IH as [|[q|] values Hq _ IHvalues]; simpl in *; [done| |congruence].
    destruct (paramName q) eqn:Hp; simpl in *; [|simplify_eq; eauto].
    destruct (outcome_map _ values); simpl in *; [done|]. simplify_eq. eauto.
  - destruct (outcome_map _ elements) as [l|e'] eqn:Hl; [done|].
    simplify_eq/=. clear -IH Hl.
    induction IH as [|[q|] elements Hq _ IHelements]; simpl in *; [done| |congruence].
    destruct (paramName q) eqn:Hp; simpl in *; [|simplify_eq; eauto].
    destruct (outcome_map _ elements); simpl in *; [done|]. simplify_eq. eauto.
  - destruct (paramName p) eqn:Hp; [done|]. simplify_eq/=. eauto.
Qed.

(** [paramName] against the specification's token, for every parameter: the
    token on a complete parameter, a [TypeError] on any other. *)
Theorem paramName_spec (param : Param.node) :
  paramName param
  = if complete param then Returned (token param) else Thrown TypeError.
Proof.
  destruct (complete param) eqn:Hc; [by apply paramName_complete|].
  destruct (paramName param) as [s|e] eqn:Hp.
  - apply paramName_returned_complete in Hp. congruence.
  - by rewrite (paramName_thrown _ _ Hp).
Qed.
End ParamNameFacts.

(** ** Completion lists *)

Section CompletionFacts.
Context {engine : JSEngine} {host : Host} {acorn : Acorn} {modules : Modules}.

Lemma outcome_filter_returned {A} (p : A → bool) l :
  outcome_filter (λ a, Returned (p a)) l = Returned (List.filter p l).
Proof.
  induction l as [|a l IH]; simpl; [done|]. rewrite IH. simpl.
  by destruct (p a).
Qed.

(** Lines 369-371 with a string for [filter]. *)
Lemma filterKeys_string (keys : list jsstring) (P : jsstring) :
  filterKeys keys (VString P)
  = Returned (drop (length P) <$> List.filter (λ k, startsWith k P) keys).
Proof.
  unfold filterKeys. cbn [startsWith_value value_length slice_value].
  by rewrite outcome_filter_returned.
Qed.

(** With a string [P] for [filter], the strings returned are exactly the
    candidates that start with [P], each without its first [length P]
    code units. *)
Lemma filterKeys_string_sound (keys : list jsstring) (P : jsstring) l :
  filterKeys keys (VString P) = Returned l →
  ∀ r, r ∈ l ↔ ∃ k, k ∈ keys ∧ k = P ++ r.
Proof.
  rewrite filterKeys_string. intros [= <-] r.
  rewrite list_elem_of_fmap. split.
  - intros (k & -> & Hk). apply list_elem_of_In, filter_In in Hk as [Hk Hp].
    apply startsWith_true in Hp as [rest ->]. exists (P ++ rest).
    split; [by apply list_elem_of_In|]. by rewrite drop_app_length.
  - intros (k & Hk & ->). exists (P ++ r). split; [by rewrite drop_app_length|].
    apply list_elem_of_In, filter_In. split; [by apply list_elem_of_In|].
    apply startsWith_true. by exists r.
Qed.

(** With a string for the filter the filtering rule holds as the
    specification states it: the result is a list, and a string is in it
    exactly when putting [P] back in front of it gives a candidate. *)
Theorem filterKeys_string_spec (keys : list jsstring) (P : jsstring) :
  ∃ l, filterKeys keys (VString P) = Returned l
       ∧ l = drop (length P) <$> List.filter (λ k, startsWith k P) keys
       ∧ ∀ r, r ∈ l ↔ ∃ k, k ∈ keys ∧ k = P ++ r.
Proof.
  eexists. split; [apply filterKeys_string|]. split; [done|].
  apply filterKeys_string_sound. apply filterKeys_string.
Qed.

(** With a number for the filter, the candidates that start with the
    number's text are kept, and returned whole: a number has no [length]. *)
Lemma filterKeys_number (keys : list jsstring) (x : Number) :
  filterKeys keys (VNumber x)
  = Returned (List.filter (λ k, startsWith k (Number_toString x)) keys).
Proof.
  unfold filterKeys. cbn [startsWith_value value_length slice_value].
  rewrite outcome_filter_returned. simpl. by rewrite list_fmap_id.
Qed.

(** With a regular expression for the filter, the first candidate makes
    [startsWith] throw. *)
Lemma filterKeys_regexp (k : jsstring) (keys : list jsstring) :
  filterKeys (k :: keys) VRegExp = Thrown TypeError.
Proof. reflexivity. Qed.


(** A buffer that is an identifier, not itself a global name: the global
    names that start with it, each without it. *)
Lemma onAutocomplete_identifier (buffer name : jsstring) rest (w w' : World)
    (names : list jsstring) :
  buffer ≠ [] → name ≠ [] →
  parseDammit buffer = ExpressionStatement (Identifier name) :: rest →
  collectGlobalNames w = (Returned names, w') →
  name ∉ names →
  onAutocomplete buffer w
  = (Returned (Candidates (drop (length name)
                             <$> List.filter (λ k, startsWith k name) names)), w').
Proof.
  intros Hbuffer Hname Hparse Hnames Hnew. unfold onAutocomplete.
  rewrite bool_decide_eq_false_2 by by destruct buffer.
  rewrite Hparse, !run_bind, Hnames.
  assert (keys_include names (VString name) = false) as ->
    by by apply bool_decide_eq_false_2.
  cbn [mret M_ret]. rewrite run_bind. cbn [mret M_ret].
  unfold finish. cbn [ToBoolean]. rewrite bool_decide_eq_false_2 by done.
  cbn [negb]. rewrite run_bind. unfold lift.
  by rewrite filterKeys_string.
Qed.

(** C9 (amended): for the buffer [Ma], parsed as that identifier, in a
    context where the only global name starting with [Ma] is [Math], the
    completion is exactly the suffix [th]; for the empty buffer it is the
    list of all global names, each in full. *)
Theorem onAutocomplete_Ma (w w' : World) (names : list jsstring) :
  parseDammit (js "Ma") = [ExpressionStatement (Identifier (js "Ma"))] →
  collectGlobalNames w = (Returned names, w') →
  List.filter (λ k, startsWith k (js "Ma")) names = [js "Math"] →
  onAutocomplete (js "Ma") w = (Returned (Candidates [js "th"]), w')
  ∧ onAutocomplete [] w = (Returned (Candidates names), w').
Proof.
  intros Hparse Hnames Honly. split.
  - rewrite (onAutocomplete_identifier (js "Ma") (js "Ma") [] w w' names);
      [by rewrite Honly | done | done | done | done |].
    intros Hin.
    assert (js "Ma" ∈ [js "Math"]) as Hin'.
    { rewrite <- Honly. apply list_elem_of_In, filter_In.
      split; [by apply list_elem_of_In|].
      apply startsWith_true. by exists []. }
    apply list_elem_of_In in Hin'. destruct Hin' as [?|[]]. discriminate.
  - unfold onAutocomplete. rewrite bool_decide_eq_true_2 by done.
    by rewrite run_bind, Hnames.
Qed.

(** [collectGlobalNames] never throws. *)
Lemma collectGlobalNames_returns (w : World) :
  ∃ names w', collectGlobalNames w = (Returned names, w').
Proof.
  unfold collectGlobalNames. rewrite run_bind. cbn [get_target].
  rewrite run_bind. unfold try_catch.
  destruct (Runtime_globalLexicalScopeNames w) as [[names|e] w']; cbn; eauto.
Qed.

(** The empty buffer is answered with the global names as they are:
    nothing is filtered and nothing is stripped. *)
Lemma onAutocomplete_empty (w : World) :
  ∃ names w', collectGlobalNames w = (Returned names, w')
              ∧ onAutocomplete [] w = (Returned (Candidates names), w').
Proof.
  destruct (collectGlobalNames_returns w) as (names & w' & Hnames).
  exists names, w'. split; [done|].
  unfold onAutocomplete. rewrite bool_decide_eq_true_2 by done.
  by rewrite run_bind, Hnames.
Qed.
End CompletionFacts.

(** ** Runs on the concrete environment *)

Section DemoFacts.
#[local] Existing Instances Demo.engine Demo.host Demo.acorn Demo.modules.

Lemma undigits_digits (d : Decimal.uint) : Demo.undigits (digits d) = Some d.
Proof. induction d; simpl; [done|..]; by rewrite IHd. Qed.

(** In the concrete engine every decimal numeral is given back unchanged. *)
Lemma demo_number_roundtrip (n : N) :
  Number_toString (ToNumber (decimal n)) = decimal n.
Proof.
  unfold decimal. simpl. rewrite undigits_digits. simpl.
  by rewrite DecimalN.Unsigned.of_to.
Qed.

(** The opening brace alone: the evaluation throws, the text is
    recoverable, and [onLine] asks for another line. *)
Lemma onLine_recoverable_witness :
  ∃ w', onLine (js "{") Demo.world = (Returned kNeedsAnotherLine, w')
        ∧ REPL.last (repl w') = None
        ∧ REPL.lastError (repl w') = None.
Proof.
  exists (performEval (js "{") false false Demo.world).2.
  by eapply (onLine_recoverable (js "{") Demo.world).
Defined.

(** A failing line that is not recoverable fills the last-error slot;
    a line that evaluates fills the last-value slot. *)
Example onLine_nope :
  (onLine (js "nope") Demo.world).1
    = Returned (Rendered (js "ReferenceError: nope is not defined"))
  ∧ repl (onLine (js "nope") Demo.world).2
    = {| REPL.last := None;
         REPL.lastError :=
           Some (Demo.error "ReferenceError" "ReferenceError: nope is not defined" "8");
         REPL._inspectTarget := None |}.
Proof. by vm_compute. Qed.

Example onLine_1 :
  (onLine (js "1") Demo.world).1 = Returned (Rendered (js "1"))
  ∧ repl (onLine (js "1") Demo.world).2
    = {| REPL.last := Some (Demo.number "1"); REPL.lastError := None;
         REPL._inspectTarget := None |}.
Proof. by vm_compute. Qed.

Lemma onLine_without_await_witness :
  (∃ rest, calls (onLine (js "1") Demo.world).2
           = Evaluate (directRequest (js "1") false) :: rest)
  ∧ ∀ rewrite,
      onLine (modules := with_processTopLevelAwait rewrite Demo.modules)
        (js "1") Demo.world
      = onLine (js "1") Demo.world.
Proof. apply (onLine_without_await (js "1") Demo.world). reflexivity. Defined.



(** After an opening double quote the flag is not set, and the key [0] is
    offered bare. *)
Example bracketKey_after_double_quote :
  memberFilter true (Literal (VString (js "0")) (double_quote :: js "0"))
  = (VString (js "0"), false)
  ∧ bracketKey false (js "0") = js "0]".
Proof. by split. Qed.

(** A numeral with leading zeros is not what the number conversion gives
    back, and is quoted like any other key. *)
Example bracketKey_leading_zeros : bracketKey false (js "007") = js "'007']".
Proof. reflexivity. Qed.

Lemma onAutocomplete_Ma_witness :
  ∃ w', onAutocomplete (js "Ma") Demo.world = (Returned (Candidates [js "th"]), w')
        ∧ onAutocomplete [] Demo.world
          = (Returned (Candidates [js "Object"; js "Math"; js "a"]), w').
Proof.
  exists (collectGlobalNames Demo.world).2.
  by apply (onAutocomplete_Ma Demo.world (collectGlobalNames Demo.world).2
              [js "Object"; js "Math"; js "a"]).
Defined.

(** C9 as stated fails: the only global name that starts with [Ma] is
    [Math], and the completion of the empty buffer is the list of the
    global names in full; the suffix [th] is not in it. *)
Lemma onAutocomplete_empty_buffer :
  List.filter (λ k, startsWith k (js "Ma")) [js "Object"; js "Math"; js "a"]
    = [js "Math"]
  ∧ (onAutocomplete [] Demo.world).1
    = Returned (Candidates [js "Object"; js "Math"; js "a"])
  ∧ js "th" ∉ [js "Object"; js "Math"; js "a"].
Proof.
  split_and!; [reflexivity..|].
  by apply (bool_decide_eq_false_1 (js "th" ∈ [js "Object"; js "Math"; js "a"])).
Qed.

(** C4 fails on the code: for the buffer [a[1] the filter is the number 1,
    which has no [length]; the candidates [1]] and [10]] start with its
    text and come back whole, not with their first code unit removed. *)
Theorem onAutocomplete_numeric_filter :
  filterKeys [js "1]"; js "10]"; js "'constructor']"] (VNumber (Some 1%N))
    = Returned [js "1]"; js "10]"]
  ∧ (onAutocomplete (js "a[1") Demo.world).1
    = Returned (Candidates [js "1]"; js "10]"]).
Proof. split; reflexivity. Qed.

(** The buffer [Math.m]: own and inherited names that start with [m],
    without it. *)
Example onAutocomplete_Math_m :
  (onAutocomplete (js "Math.m") Demo.world).1
    = Returned (Candidates [js "ax"; js "in"]).
Proof. reflexivity. Qed.

(** From [function f(a, b = 1, ...rest) {}] the tokens [a], [?b] and
    [...rest]. *)
Example paramName_signature :
  match parseDescription (js "function f(a, b = 1, ...rest) {}") with
  | Some (Some expr :: _) => outcome_map paramName <$> describedParams expr
  | _ => None
  end = Some (Returned [js "a"; js "?b"; js "...rest"]).
Proof. reflexivity. Qed.
End DemoFacts.

(** C6 fails on the code: an array pattern with a hole, as in
    [function f([a, , b]) {}], has [null] for the hole, and [paramName]
    throws a [TypeError] on it instead of returning a bracket-grouped list;
    so does an object pattern with a rest element, as in
    [function f({ a, ...rest }) {}]. *)
Theorem paramName_hole_throws :
  paramName (Param.ArrayPattern
               [Some (Param.Identifier (js "a")); None;
                Some (Param.Identifier (js "b"))])
    = Thrown TypeError
  ∧ paramName (Param.ObjectPattern [Some (Param.Identifier (js "a")); None])
    = Thrown TypeError.
Proof. split; reflexivity. Qed.

(** * Further properties of the code *)

(** ** Stack traces *)

Section StackTraceFacts.
Context {A : Type} (p : A → bool).

Lemma findIndex_lower_bound l : (-1 ≤ findIndex p l)%Z.
Proof.
  induction l as [|a l IH]; simpl; [lia|].
  destruct (p a); [lia|]. destruct (Z.ltb_spec (findIndex p l) 0); lia.
Qed.

Lemma findIndex_none l : Forall (λ a, p a = false) l → findIndex p l = (-1)%Z.
Proof. induction 1 as [|a l Ha _ IH]; simpl; [done|]. by rewrite Ha, IH. Qed.

Lemma findIndex_first pre a post :
  Forall (λ a, p a = false) pre → p a = true →
  findIndex p (pre ++ a :: post) = Z.of_nat (length pre).
Proof.
  intros Hpre Ha. induction Hpre as [|b pre Hb _ IH]; simpl.
  - by rewrite Ha.
  - rewrite Hb, IH. destruct (Z.ltb_spec (Z.of_nat (length pre)) 0); lia.
Qed.
End StackTraceFacts.

(** When every frame has a file name or a function name, [findIndex] finds
    nothing, the cut is at zero, and the trace is the error text alone: no
    frame is shown. *)
Theorem prepareStackTrace_all_named (err : jsstring) (frames : list CallSite) :
  Forall named frames → prepareStackTrace err frames = err.
Proof.
  intros Hnamed. unfold prepareStackTrace.
  rewrite findIndex_none by done. done.
Qed.

Lemma prepareStackTrace_all_named_witness :
  prepareStackTrace (js "Error: x")
    [ {| getFileName := Some (js "repl"); getFunctionName := None;
         callSiteText := js "repl:1:7" |};
      {| getFileName := None; getFunctionName := Some (js "run");
         callSiteText := js "run (native)" |} ]
  = js "Error: x".
Proof. apply prepareStackTrace_all_named. by repeat constructor. Defined.

(** The trace shows the frames up to and including the first one that has
    neither a file name nor a function name, and none after it. *)
Theorem prepareStackTrace_cut (err : jsstring) (pre post : list CallSite)
    (f : CallSite) :
  Forall named pre → nameless f = true →
  prepareStackTrace err (pre ++ f :: post) = traceOf err (pre ++ [f]).
Proof.
  intros Hpre Hf. unfold prepareStackTrace, traceOf.
  rewrite findIndex_first by done.
  replace (Z.to_nat (Z.of_nat (length pre) + 1)) with (length (pre ++ [f]))
    by (rewrite length_app; simpl; lia).
  replace (pre ++ f :: post) with ((pre ++ [f]) ++ post)
    by by rewrite <- (assoc (++)).
  rewrite take_app_length.
  rewrite bool_decide_eq_false_2; [done|].
  rewrite length_app. simpl. lia.
Qed.

Lemma prepareStackTrace_cut_witness :
  prepareStackTrace (js "Error: x")
    ([ {| getFileName := Some (js "repl"); getFunctionName := None;
          callSiteText := js "repl:1:7" |} ]
     ++ {| getFileName := None; getFunctionName := None;
           callSiteText := js "<anonymous>" |}
     :: [ {| getFileName := Some (js "vm.js"); getFunctionName := Some (js "runInThisContext");
             callSiteText := js "Script.runInThisContext (vm.js:1:1)" |} ])
  = js "Error: x" ++ at_separator ++ js "repl:1:7" ++ at_separator ++ js "<anonymous>".
Proof. apply prepareStackTrace_cut; [by repeat constructor | done]. Defined.

(** ** Disambiguation, again *)

Section WrapAgain.
Context {engine : JSEngine}.

Lemma test_leading_brace_other (c : N) (rest : jsstring) :
  is_whitespace c = false → c ≠ 123%N → test_leading_brace (c :: rest) = false.
Proof.
  intros Hc Hbrace. unfold test_leading_brace.
  rewrite trimStart_visible by done.
  apply bool_decide_eq_false_2. intros [r Hr].
  change (js "{") with [123%N] in Hr. by simplify_eq/=.
Qed.

Lemma wrap_other (c : N) (rest : jsstring) :
  is_whitespace c = false → c ≠ 123%N →
  wrapObjectLiteralExpressionIfNeeded (c :: rest) = c :: rest.
Proof.
  intros Hc Hbrace. unfold wrapObjectLiteralExpressionIfNeeded.
  by rewrite test_leading_brace_other.
Qed.

Lemma wrap_wrap (code : jsstring) :
  wrapObjectLiteralExpressionIfNeeded (wrapObjectLiteralExpressionIfNeeded code)
  = wrapObjectLiteralExpressionIfNeeded code.
Proof.
  assert (wrapObjectLiteralExpressionIfNeeded code = code
          ∨ wrapObjectLiteralExpressionIfNeeded code = 40%N :: code ++ js ")")
    as [Hsame|Hwrapped].
  { unfold wrapObjectLiteralExpressionIfNeeded.
    destruct (negb _); [by left|].
    destruct (AsyncFunction_parses (js "return " ++ code ++ js ";")); [|by left].
    destruct (AsyncFunction_parses (js "(" ++ code ++ js ")")); [by right|by left]. }
  - by rewrite !Hsame.
  - rewrite Hwrapped. by apply wrap_other.
Qed.

(** Disambiguating twice is disambiguating once, and the text
    [Object(...)] built around a disambiguated text is left alone: the
    second pass that [performEval] makes over the texts [oneLineEval] and
    the boxing step hand to it changes nothing. *)
Theorem wrapObjectLiteralExpressionIfNeeded_idempotent (code : jsstring) :
  wrapObjectLiteralExpressionIfNeeded (wrapObjectLiteralExpressionIfNeeded code)
  = wrapObjectLiteralExpressionIfNeeded code
  ∧ wrapObjectLiteralExpressionIfNeeded
      (js "Object(" ++ wrapObjectLiteralExpressionIfNeeded code ++ js ")")
    = js "Object(" ++ wrapObjectLiteralExpressionIfNeeded code ++ js ")".
Proof. split; [apply wrap_wrap | by apply wrap_other]. Qed.
End WrapAgain.

(** ** Parameter suggestions, again *)

(** [finishParams] is [undefined] exactly when as many arguments are typed
    as there are parameters.  Otherwise it is the remaining tokens joined by
    a comma and a space, with nothing, a space, or a comma and a space in
    front, and nothing in front when no argument is typed. *)
Theorem finishParams_cases (arguments_length : nat) (buffer : jsstring)
    (params : list jsstring) :
  (arguments_length = length params
   ∧ finishParams arguments_length buffer params = None)
  ∨ (arguments_length ≠ length params
     ∧ ∃ separator,
         separator ∈ [[]; js " "; js ", "]
         ∧ (arguments_length = 0 → separator = [])
         ∧ finishParams arguments_length buffer params
           = Some (separator ++ join (js ", ") (drop arguments_length params))).
Proof.
  unfold finishParams. case_bool_decide as Hlen; [by left|]. right.
  split; [done|].
  destruct (Nat.ltb_spec 0 arguments_length).
  - destruct (endsWith _ _).
    + destruct (Z.ltb_spec 0 (Z.of_nat (length buffer)
                               - (lastIndexOf buffer (js ",") + 1))).
      * exists []. split_and!; [set_solver | done | done].
      * exists (js " "). split_and!; [set_solver | lia | done].
    + exists (js ", "). split_and!; [set_solver | lia | done].
  - exists []. split_and!; [set_solver | done | done].
Qed.

(** ** Property lists *)

Lemma ownThenInherited_perm (properties : list PropertyDescriptor) :
  ownThenInherited properties
    ≡ₚ name <$> List.filter (λ p, negb (symbol p)) properties.
Proof.
  unfold ownThenInherited.
  induction (List.filter _ properties) as [|p l IH]; simpl; [done|].
  destruct (isOwn p); simpl.
  - by rewrite IH.
  - rewrite <- Permutation_middle. by rewrite IH.
Qed.

Lemma elem_of_ownThenInherited (properties : list PropertyDescriptor) k :
  k ∈ ownThenInherited properties
  ↔ ∃ p, p ∈ properties ∧ symbol p = false ∧ name p = k.
Proof.
  rewrite ownThenInherited_perm, list_elem_of_fmap. split.
  - intros (p & -> & Hp). apply list_elem_of_In, filter_In in Hp as [Hp Hs].
    exists p. split_and!; [by apply list_elem_of_In | by destruct (symbol p) | done].
  - intros (p & Hp & Hs & <-). exists p. split; [done|].
    apply list_elem_of_In, filter_In. split; [by apply list_elem_of_In|].
    by rewrite Hs.
Qed.

(** The keys of a member completion are the names of the descriptors that
    have no symbol, each as many times as it is described: nothing is lost
    and nothing is made up by putting own names first. *)
Theorem ownThenInherited_permutation (properties : list PropertyDescriptor) :
  ownThenInherited properties
    ≡ₚ name <$> List.filter (λ p, negb (symbol p)) properties
  ∧ ∀ k, k ∈ ownThenInherited properties
         ↔ ∃ p, p ∈ properties ∧ symbol p = false ∧ name p = k.
Proof. split; [apply ownThenInherited_perm | apply elem_of_ownThenInherited]. Qed.

(** ** The global object *)

Section GlobalFacts.
Context {values : JSValues}.
Implicit Types (g : Global.state) (name : jsstring) (repl : REPL.state).

Lemma readTimes_loaded n name repl g lib set e :
  Global.properties g !! name = Some (Global.Accessor (Global.Library lib) set e) →
  Global.readTimes (S n) name repl g = (Some lib, g).
Proof.
  intros Hname. induction n as [|n IH].
  - simpl. unfold Global.read. by rewrite Hname.
  - change (Global.readTimes (S (S n)) name repl g)
      with (Global.readTimes (S n) name repl (Global.read name repl g).2).
    unfold Global.read at 1. rewrite Hname. exact IH.
Qed.

(** A library is loaded by the first read of its global and by no later
    one: however often the global is read, [require] has been called with
    its name once, every read has given the library, and the property has
    become a getter for the loaded library, still not enumerable. *)
Theorem library_loaded_once (n : nat) name repl g e :
  Global.properties g !! name
    = Some (Global.Accessor (Global.LoadLibrary name) (Global.SetReal name) e) →
  (Global.readTimes (S n) name repl g).1 = Some (require name)
  ∧ Global.required (Global.readTimes (S n) name repl g).2
    = Global.required g ++ [name]
  ∧ Global.properties (Global.readTimes (S n) name repl g).2
    = <[name := Global.Accessor (Global.Library (require name))
                  (Global.SetReal name) false]> (Global.properties g).
Proof.
  intros Hname.
  assert (Global.read name repl g
          = (Some (require name),
             {| Global.properties :=
                  <[name := Global.Accessor (Global.Library (require name))
                              (Global.SetReal name) false]> (Global.properties g);
                Global.required := Global.required g ++ [name] |})) as Hfirst.
  { unfold Global.read. rewrite Hname. simpl.
    unfold Global.defineProperty, Global.deleteProperty. simpl.
    by rewrite insert_delete_eq. }
  destruct n as [|n].
  - simpl. by rewrite Hfirst.
  - change (Global.readTimes (S (S n)) name repl g)
      with (Global.readTimes (S n) name repl (Global.read name repl g).2).
    rewrite Hfirst. cbn [snd].
    rewrite (readTimes_loaded n name repl _ (require name) (Global.SetReal name) false);
      [done|].
    apply lookup_insert_eq.
Qed.

Lemma read_assign name (v : V) repl g :
  Global.ownSetter name g →
  Global.read name repl (Global.assign name v g) = (Some v, Global.assign name v g).
Proof.
  intros Hown. unfold Global.assign.
  destruct (Global.properties g !! name) as [[value e|get [target] e]|] eqn:Hname.
  - unfold Global.assignData. rewrite Hname. unfold Global.read. simpl.
    by rewrite lookup_insert_eq.
  - rewrite (Hown _ _ _ Hname). unfold Global.assignData. simpl.
    rewrite lookup_delete_eq. unfold Global.read. simpl.
    by rewrite lookup_insert_eq.
  - unfold Global.assignData. rewrite Hname. unfold Global.read. simpl.
    by rewrite lookup_insert_eq.
Qed.

Lemma required_assign name (v : V) g :
  Global.required (Global.assign name v g) = Global.required g.
Proof.
  unfold Global.assign, Global.assignData.
  destruct (Global.properties g !! name) as [[value e|get [target] e]|]; simpl;
    try done.
  - by destruct (delete target (Global.properties g) !! target) as [[]|].
Qed.

(** Assigning a global and reading it back gives the assigned value, and
    loads nothing: this holds for a missing property, a data property and
    an accessor whose setter is [setReal] for its own name, a library not
    yet loaded included. *)
Theorem assign_read name (v : V) repl g :
  Global.ownSetter name g →
  Global.read name repl (Global.assign name v g) = (Some v, Global.assign name v g)
  ∧ Global.required (Global.assign name v g) = Global.required g.
Proof. intros Hown. split; [by apply read_assign | apply required_assign]. Qed.

Lemma foldl_defineLazy_required (names : list jsstring) g :
  Global.required (foldl (λ g name, Global.defineLazy name g) g names)
  = Global.required g.
Proof. revert g. induction names as [|n names IH]; intros g; simpl; [done|]. by rewrite IH. Qed.

Lemma foldl_defineLazy_lookup (names : list jsstring) g name :
  Global.properties (foldl (λ g name, Global.defineLazy name g) g names) !! name
  = if bool_decide (name ∈ names)
    then Some (Global.Accessor (Global.LoadLibrary name) (Global.SetReal name) false)
    else Global.properties g !! name.
Proof.
  revert g. induction names as [|n names IH]; intros g; simpl; [done|].
  rewrite IH. destruct (decide (name ∈ names)) as [Hin|Hin].
  - rewrite !bool_decide_eq_true_2; [done| by right | done].
  - rewrite (bool_decide_eq_false_2 (name ∈ names)) by done.
    destruct (decide (name = n)) as [->|Hne].
    + rewrite bool_decide_eq_true_2 by by left. apply lookup_insert_eq.
    + rewrite bool_decide_eq_false_2; [by apply lookup_insert_ne|].
      by intros [?|?]%elem_of_cons.
Qed.

(** An assignment through a property that is not an accessor, or whose
    setter is for its own name, touches that name only. *)
Lemma assign_lookup_ne name name' (v : V) g :
  name' ≠ name →
  Global.ownSetter name g →
  Global.properties (Global.assign name v g) !! name' = Global.properties g !! name'.
Proof.
  intros Hne Hown. unfold Global.assign, Global.assignData.
  destruct (Global.properties g !! name) as [[value e|get [target] e]|] eqn:Hname;
    simpl.
  - by rewrite lookup_insert_ne.
  - rewrite (Hown _ _ _ Hname), lookup_delete_eq. simpl.
    by rewrite lookup_insert_ne, lookup_delete_ne.
  - by rewrite lookup_insert_ne.
Qed.

Lemma assign_lookup_eq name (v : V) g :
  Global.ownSetter name g →
  ∃ e, Global.properties (Global.assign name v g) !! name = Some (Global.Data v e).
Proof.
  intros Hown. unfold Global.assign, Global.assignData.
  destruct (Global.properties g !! name) as [[value e|get [target] e]|] eqn:Hname;
    simpl.
  - exists e. by rewrite lookup_insert_eq.
  - rewrite (Hown _ _ _ Hname), lookup_delete_eq. simpl.
    exists true. by rewrite lookup_insert_eq.
  - exists true. by rewrite lookup_insert_eq.
Qed.

Lemma elem_of_builtinLibs name (builtinModules : list jsstring) :
  name ∈ Global.builtinLibs builtinModules
  ↔ name ∈ builtinModules
    ∧ startsWith name (js "_") = false ∧ includes name (js "/") = false.
Proof.
  unfold Global.builtinLibs. rewrite !list_elem_of_In, filter_In.
  rewrite negb_true_iff, orb_false_iff. tauto.
Qed.

Lemma ownSetter_lazy (names : list jsstring) name g :
  Global.ownSetter name g →
  Global.ownSetter name (foldl (λ g name, Global.defineLazy name g) g names).
Proof.
  intros Hown get target e. rewrite foldl_defineLazy_lookup.
  case_bool_decide; [by intros [= _ <- _]|]. apply Hown.
Qed.

Lemma ownSetter_assign name name' (v : V) g :
  name' ≠ name → Global.ownSetter name g → Global.ownSetter name' g →
  Global.ownSetter name' (Global.assign name v g).
Proof.
  intros Hne Hname Hname' get target e. rewrite assign_lookup_ne by done.
  apply Hname'.
Qed.

(** Reading [global.process] when it loads nothing any more. *)
Lemma readProcess_loaded g : Global.processLoaded g → Global.readProcess g = g.
Proof.
  unfold Global.readProcess, Global.read.
  by intros [(v & e & ->)|(lib & e & ->)].
Qed.

Lemma processLoaded_assign name (v : V) g :
  name ≠ js "process" → Global.ownSetter name g →
  Global.processLoaded g → Global.processLoaded (Global.assign name v g).
Proof.
  intros Hne Hown. unfold Global.processLoaded.
  by rewrite assign_lookup_ne.
Qed.

(** The first [process.cwd()] of the set-up, after the libraries have got
    their globals: it loads [process] when that is a builtin library, and
    nothing otherwise; no other property changes. *)
Lemma readProcess_lazy builtinModules g :
  Global.hasProcess builtinModules g →
  let g0 := foldl (λ g name, Global.defineLazy name g) g
              (Global.builtinLibs builtinModules) in
  let g1 := Global.readProcess g0 in
  Global.processLoaded g1
  ∧ (∀ name, name ≠ js "process" →
             Global.properties g1 !! name = Global.properties g0 !! name)
  ∧ Global.required g1
    = Global.required g
      ++ (if bool_decide (js "process" ∈ builtinModules) then [js "process"] else [])
  ∧ Global.properties g1 !! js "process"
    = if bool_decide (js "process" ∈ builtinModules)
      then Some (Global.Accessor (Global.Library (require (js "process")))
                   (Global.SetReal (js "process")) false)
      else Global.properties g !! js "process".
Proof.
  intros Hprocess g0 g1.
  pose proof (foldl_defineLazy_lookup (Global.builtinLibs builtinModules) g
                (js "process")) as Hlookup.
  fold g0 in Hlookup.
  pose proof (foldl_defineLazy_required (Global.builtinLibs builtinModules) g)
    as Hrequired.
  fold g0 in Hrequired.
  destruct (decide (js "process" ∈ builtinModules)) as [Hin|Hin].
  - rewrite !(bool_decide_eq_true_2 (js "process" ∈ builtinModules)) by done.
    rewrite bool_decide_eq_true_2 in Hlookup
      by (apply elem_of_builtinLibs; by split_and!).
    assert (g1 = {| Global.properties :=
                      <[js "process" :=
                          Global.Accessor (Global.Library (require (js "process")))
                            (Global.SetReal (js "process")) false]>
                        (Global.properties g0);
                    Global.required := Global.required g0 ++ [js "process"] |})
      as ->.
    { unfold g1, Global.readProcess, Global.read. rewrite Hlookup. cbn [snd].
      unfold Global.defineProperty, Global.deleteProperty. cbn.
      by rewrite insert_delete_eq. }
    cbn [Global.properties Global.required]. split_and!.
    + right. exists (require (js "process")), false. apply lookup_insert_eq.
    + intros name Hne. by apply lookup_insert_ne.
    + by rewrite Hrequired.
    + apply lookup_insert_eq.
  - rewrite !(bool_decide_eq_false_2 (js "process" ∈ builtinModules)) by done.
    rewrite bool_decide_eq_false_2 in Hlookup
      by (rewrite elem_of_builtinLibs; tauto).
    destruct Hprocess as [?|(v & e & Hdata)]; [done|].
    rewrite Hdata in Hlookup.
    assert (g1 = g0) as ->.
    { apply readProcess_loaded. left. eauto. }
    split_and!; [left; eauto|done|by rewrite Hrequired, app_nil_r|].
    by rewrite Hlookup, Hdata.
Qed.

Lemma ownSetter_readProcess builtinModules name g :
  Global.hasProcess builtinModules g →
  Global.ownSetter name g →
  Global.ownSetter name
    (Global.readProcess
       (foldl (λ g name, Global.defineLazy name g) g
          (Global.builtinLibs builtinModules))).
Proof.
  intros Hprocess Hown get target e.
  destruct (readProcess_lazy builtinModules g Hprocess) as (_ & Hother & _ & Hthis).
  destruct (decide (name = js "process")) as [->|Hne].
  - rewrite Hthis. case_bool_decide; [by intros [= _ <- _]|apply Hown].
  - rewrite Hother by done. by apply ownSetter_lazy.
Qed.

Ltac own_setter :=
  solve [ repeat first
            [ done | by eapply ownSetter_readProcess | apply ownSetter_assign ] ].

(** The set-up, with the second [process.cwd()] resolved: it reads a
    property that loads nothing any more. *)
Lemma startup_run builtinModules (module require' REPL' : V) g :
  Global.hasProcess builtinModules g →
  Global.ownSetter (js "module") g →
  Global.startup builtinModules module require' REPL' g
  = Global.defineProperty (js "_err")
      (Global.Accessor Global.LastError (Global.SetReal (js "_err")) false)
      (Global.defineProperty (js "_")
         (Global.Accessor Global.Last (Global.SetReal (js "_")) false)
         (Global.assign (js "REPL") REPL'
            (Global.assign (js "require") require'
               (Global.assign (js "module") module
                  (Global.readProcess
                     (foldl (λ g name, Global.defineLazy name g) g
                        (Global.builtinLibs builtinModules))))))).
Proof.
  intros Hprocess Hmodule. unfold Global.startup. cbn zeta.
  rewrite (readProcess_loaded (Global.assign _ _ _)); [done|].
  apply processLoaded_assign; [done|by eapply ownSetter_readProcess|].
  by apply readProcess_lazy.
Qed.

(** After the top level has run, on a global object whose [process] can be
    read: the set-up has loaded [process] when that is a builtin library,
    and nothing else.  For a name other than [process] and the five the
    set-up assigns or defines afterwards, the global of every library whose
    name neither starts with an underscore nor contains a slash is the
    accessor that loads it on first use, not enumerable, and any other name
    is as it was. *)
Theorem startup_libraries builtinModules (module require' REPL' : V) g name :
  Global.ownSetter (js "module") g → Global.ownSetter (js "require") g →
  Global.ownSetter (js "REPL") g →
  Global.hasProcess builtinModules g →
  name ∉ Global.reserved → name ≠ js "process" →
  let g' := Global.startup builtinModules module require' REPL' g in
  (Global.required g'
   = Global.required g
     ++ (if bool_decide (js "process" ∈ builtinModules) then [js "process"] else []))
  ∧ (Global.properties g' !! js "process"
     = if bool_decide (js "process" ∈ builtinModules)
       then Some (Global.Accessor (Global.Library (require (js "process")))
                    (Global.SetReal (js "process")) false)
       else Global.properties g !! js "process")
  ∧ (name ∈ builtinModules → startsWith name (js "_") = false →
     includes name (js "/") = false →
     Global.properties g' !! name
     = Some (Global.Accessor (Global.LoadLibrary name) (Global.SetReal name) false))
  ∧ (name ∉ builtinModules ∨ startsWith name (js "_") = true
     ∨ includes name (js "/") = true →
     Global.properties g' !! name = Global.properties g !! name).
Proof.
  intros Hmodule Hrequire HREPL Hprocess Hname Hne g'. subst g'.
  rewrite startup_run by done.
  destruct (readProcess_lazy builtinModules g Hprocess)
    as (_ & Hother & Hrequired & Hthis).
  assert (∀ name', name' ∉ Global.reserved →
            Global.properties
              (Global.defineProperty (js "_err")
                 (Global.Accessor Global.LastError (Global.SetReal (js "_err")) false)
                 (Global.defineProperty (js "_")
                    (Global.Accessor Global.Last (Global.SetReal (js "_")) false)
                    (Global.assign (js "REPL") REPL'
                       (Global.assign (js "require") require'
                          (Global.assign (js "module") module
                             (Global.readProcess
                                (foldl (λ g name, Global.defineLazy name g) g
                                   (Global.builtinLibs builtinModules)))))))) !! name'
            = Global.properties
                (Global.readProcess
                   (foldl (λ g name, Global.defineLazy name g) g
                      (Global.builtinLibs builtinModules))) !! name') as Hkept.
  { intros name' Hname'.
    assert (name' ≠ js "module" ∧ name' ≠ js "require" ∧ name' ≠ js "REPL"
            ∧ name' ≠ js "_" ∧ name' ≠ js "_err") as (?&?&?&?&?).
    { unfold Global.reserved in Hname'. rewrite !not_elem_of_cons in Hname'.
      tauto. }
    unfold Global.defineProperty at 1 2. cbn [Global.properties].
    rewrite !lookup_insert_ne by done.
    by rewrite !assign_lookup_ne by own_setter. }
  split_and!.
  - unfold Global.defineProperty. cbn [Global.required].
    by rewrite !required_assign.
  - rewrite Hkept; [done|]. by apply (bool_decide_unpack _).
  - intros ???. rewrite Hkept, Hother, foldl_defineLazy_lookup by done.
    by rewrite bool_decide_eq_true_2 by by apply elem_of_builtinLibs.
  - intros Hout. rewrite Hkept, Hother, foldl_defineLazy_lookup by done.
    rewrite bool_decide_eq_false_2; [done|].
    rewrite elem_of_builtinLibs. intros (?&?&?).
    destruct Hout as [?|[?|?]]; congruence.
Qed.

(** On a global object whose [process] can be read, [module], [require] and
    [REPL] read as the values assigned to them, and reading them loads
    nothing, also when a library of that name exists (there is a library
    [module]): the assignment has replaced its accessor. *)
Theorem startup_shadows builtinModules (module require' REPL' : V) g repl :
  Global.ownSetter (js "module") g → Global.ownSetter (js "require") g →
  Global.ownSetter (js "REPL") g →
  Global.hasProcess builtinModules g →
  let g' := Global.startup builtinModules module require' REPL' g in
  Global.read (js "module") repl g' = (Some module, g')
  ∧ Global.read (js "require") repl g' = (Some require', g')
  ∧ Global.read (js "REPL") repl g' = (Some REPL', g').
Proof.
  intros Hmodule Hrequire HREPL Hprocess g'. subst g'.
  assert (∀ name v,
            (∃ e, Global.properties
                    (Global.startup builtinModules module require' REPL' g) !! name
                  = Some (Global.Data v e)) →
            Global.read name repl
              (Global.startup builtinModules module require' REPL' g)
            = (Some v, Global.startup builtinModules module require' REPL' g))
    as Hread.
  { intros name v [e He]. unfold Global.read. by rewrite He. }
  split_and!; apply Hread; rewrite startup_run by done;
    unfold Global.defineProperty at 1 2; cbn [Global.properties];
    rewrite !lookup_insert_ne by done.
  - rewrite !assign_lookup_ne by own_setter.
    apply assign_lookup_eq. own_setter.
  - rewrite assign_lookup_ne by own_setter.
    apply assign_lookup_eq. own_setter.
  - apply assign_lookup_eq. own_setter.
Qed.

Lemma read_underscore builtinModules (module require' REPL' : V) g repl :
  let g' := Global.startup builtinModules module require' REPL' g in
  Global.read (js "_") repl g' = (Some (held (REPL.last repl)), g')
  ∧ Global.read (js "_err") repl g' = (Some (held (REPL.lastError repl)), g').
Proof.
  intros g'. subst g'. unfold Global.startup. cbn zeta.
  set (g3 := Global.assign (js "REPL") _ _).
  split; unfold Global.read, Global.defineProperty; cbn [Global.properties].
  - by rewrite lookup_insert_ne, lookup_insert_eq.
  - by rewrite lookup_insert_eq.
Qed.

(** [_] reads the last value and [_err] the last error, whatever they are
    at the time of the read; once [_] is assigned it is an ordinary
    property and reads as the assigned value whatever the session state
    becomes. *)
Theorem underscore_reads_last builtinModules (module require' REPL' : V) g :
  let g' := Global.startup builtinModules module require' REPL' g in
  (∀ repl, Global.read (js "_") repl g' = (Some (held (REPL.last repl)), g'))
  ∧ (∀ repl, Global.read (js "_err") repl g'
             = (Some (held (REPL.lastError repl)), g'))
  ∧ (∀ v repl, (Global.read (js "_") repl (Global.assign (js "_") v g')).1 = Some v)
  ∧ (∀ v repl, (Global.read (js "_err") repl (Global.assign (js "_err") v g')).1
               = Some v).
Proof.
  intros g'. subst g'. split_and!.
  - intros repl. apply read_underscore.
  - intros repl. apply read_underscore.
  - intros v repl. rewrite read_assign; [done|].
    intros get target e. unfold Global.startup. cbn zeta.
    set (g3 := Global.assign (js "REPL") _ _).
    unfold Global.defineProperty. cbn [Global.properties].
    rewrite lookup_insert_ne, lookup_insert_eq by done. by intros [= _ <- _].
  - intros v repl. rewrite read_assign; [done|].
    intros get target e. unfold Global.startup. cbn zeta.
    set (g3 := Global.assign (js "REPL") _ _).
    unfold Global.defineProperty. cbn [Global.properties].
    rewrite lookup_insert_eq. by intros [= _ <- _].
Qed.
End GlobalFacts.

(** ** The evaluators, again *)

Section EvaluatorFacts.
Context {engine : JSEngine} {host : Host} {acorn : Acorn} {modules : Modules}.

Lemma performEval_bestEffort_run code w :
  performEval code false true w
  = ((host_evaluate (speculativeRequest (wrapObjectLiteralExpressionIfNeeded code))
        (repl w) (target w)).1,
     sent (Evaluate (speculativeRequest (wrapObjectLiteralExpressionIfNeeded code)))
       (host_evaluate (speculativeRequest (wrapObjectLiteralExpressionIfNeeded code))
          (repl w) (target w)).2 w).
Proof.
  unfold performEval, Runtime_evaluate, speculativeRequest.
  by destruct (host_evaluate _ (repl w) (target w)).
Qed.

(** [collectGlobalNames] never throws: a failed round trip for the lexical
    names is swallowed.  It sends that one request, and returns the own
    property names of [global] as they were before the round trip, with the
    lexical names in front when the round trip succeeded. *)
Theorem collectGlobalNames_spec (w : World) :
  let own := host_globalOwnPropertyNames (target w) in
  let reply := host_globalLexicalScopeNames (target w) in
  collectGlobalNames w
  = (Returned (match reply.1 with
               | Returned names => names ++ own
               | Thrown _ => own
               end),
     sent GlobalLexicalScopeNames reply.2 w).
Proof.
  intros own reply. subst own reply.
  unfold collectGlobalNames. rewrite run_bind. cbn [get_target].
  rewrite run_bind. unfold try_catch, Runtime_globalLexicalScopeNames.
  by destruct (host_globalLexicalScopeNames (target w)) as [[names|e] t].
Qed.

(** [oneLineEval] sends one best-effort evaluation of the disambiguated
    source (the second disambiguation it applies changes nothing), and never
    touches the cache.  It throws when that round trip fails and is
    [undefined] when the reply reports an exception.  For a result without an
    object handle no other request is sent, and the text is [ // ] and the
    inspection of the primitive value.  For a result with a handle one
    [callFunctionOn] request stores it in [_inspectTarget]; [oneLineEval]
    throws when that request fails and when the inspection of the stored
    value throws, and otherwise the text is [ // ] and the trimmed
    inspection. *)
Theorem oneLineEval_footprint (source : jsstring) (w : World) :
  let p := speculativeRequest (wrapObjectLiteralExpressionIfNeeded source) in
  let run := oneLineEval source w in
  functionCompletionCache run.2 = functionCompletionCache w
  ∧ match host_evaluate p (repl w) (target w) with
    | (Thrown e, _) => run.1 = Thrown e ∧ calls run.2 = calls w ++ [Evaluate p]
    | (Returned r, t) =>
        match exceptionDetails r with
        | Some _ => run.1 = Returned None ∧ calls run.2 = calls w ++ [Evaluate p]
        | None =>
            if truthy_string (objectId (result r)) then
              calls run.2
              = calls w ++ [Evaluate p;
                            CallFunctionOn SetInspectTarget (result r) mainContextId]
              ∧ match host_callFunctionOn SetInspectTarget (result r)
                        mainContextId t with
                | (Thrown e, _) => run.1 = Thrown e
                | (Returned _, t2) =>
                    match (util_inspect CompactOneLine (Some (result r)) t2).1 with
                    | Thrown e => run.1 = Thrown e
                    | Returned text =>
                        run.1 = Returned (Some (js " // " ++ trim text))
                    end
                end
            else
              run.1 = Returned (Some (js " // "
                                      ++ util_inspect_value (value (result r))))
              ∧ calls run.2 = calls w ++ [Evaluate p]
        end
    end.
Proof.
  intros p run. subst p run.
  unfold oneLineEval. rewrite run_bind, performEval_bestEffort_run.
  rewrite wrap_wrap.
  destruct (host_evaluate _ (repl w) (target w)) as [[r|e] t]; cbn [fst snd];
    [|done].
  destruct (exceptionDetails r); [done|].
  destruct (truthy_string (objectId (result r))); [|done].
  rewrite run_bind. unfold Runtime_callFunctionOn. cbn [sent target calls repl].
  destruct (host_callFunctionOn _ _ _ t) as [[[]|e] t2];
    [|by rewrite <- (assoc (++))].
  rewrite !run_bind. cbn [get_repl repl run_declaration REPL._inspectTarget].
  rewrite run_bind. unfold inspectWith. cbn [target].
  destruct (util_inspect CompactOneLine (Some (result r)) t2) as [[text|e] t3];
    cbn [fst snd ran calls functionCompletionCache mret M_ret];
    by rewrite <- (assoc (++)).
Qed.

(** [onLine] sends the direct evaluation of the line and never touches the
    cache.  It throws when that round trip fails.  After a recoverable
    error it sends nothing more.  Otherwise it sends exactly one request
    that writes a slot (the last error after an exception, the last value
    after a value) and then renders what it wrote: it throws when the
    request fails, and it throws when the rendering throws, which is after
    the request has succeeded. *)
Theorem onLine_footprint (line : jsstring) (w : World) :
  let p := directRequest (rewriteAwait line).1 (rewriteAwait line).2 in
  let run := onLine line w in
  functionCompletionCache run.2 = functionCompletionCache w
  ∧ match host_evaluate p (repl w) (target w) with
    | (Thrown e, _) => run.1 = Thrown e ∧ calls run.2 = calls w ++ [Evaluate p]
    | (Returned r, t) =>
        let '(f, v, recoverable) :=
          match exceptionDetails r with
          | Some details =>
              (SetLastError, exception details,
               isRecoverableError
                 (wrapObjectLiteralExpressionIfNeeded (rewriteAwait line).1))
          | None => (SetLast, result r, false)
          end in
        if recoverable then
          run.1 = Returned kNeedsAnotherLine
          ∧ calls run.2 = calls w ++ [Evaluate p]
        else
          calls run.2 = calls w ++ [Evaluate p; CallFunctionOn f v mainContextId]
          ∧ match host_callFunctionOn f v mainContextId t with
            | (Thrown e, _) => run.1 = Thrown e
            | (Returned _, t2) =>
                match (util_inspect ColorsShowProxy (Some v) t2).1 with
                | Thrown e => run.1 = Thrown e
                | Returned text => run.1 = Returned (Rendered text)
                end
            end
    end.
Proof.
  intros p run. subst p run.
  pose proof (onLine_run line w) as Hrun.
  destruct (rewriteAwait line) as [line' awaited]. cbn [fst snd] in *.
  destruct (host_evaluate _ (repl w) (target w)) as [[r|e] t];
    [|by rewrite Hrun].
  assert (∀ f v, written f v (sent (Evaluate (directRequest line' awaited)) t w)
                   (onLine line w) →
          functionCompletionCache (onLine line w).2 = functionCompletionCache w
          ∧ calls (onLine line w).2
            = calls w ++ [Evaluate (directRequest line' awaited);
                          CallFunctionOn f v mainContextId]
          ∧ match host_callFunctionOn f v mainContextId t with
            | (Thrown e, _) => (onLine line w).1 = Thrown e
            | (Returned _, t2) =>
                match (util_inspect ColorsShowProxy (Some v) t2).1 with
                | Thrown e => (onLine line w).1 = Thrown e
                | Returned text => (onLine line w).1 = Returned (Rendered text)
                end
            end) as Hwritten.
  { intros f v Hw.
    pose proof (written_after_evaluate _ _ _ _ _ _ Hw) as [Hcalls _].
    unfold written in Hw. cbn [sent target functionCompletionCache] in Hw.
    destruct (host_callFunctionOn f v mainContextId t) as [[[]|e] t2].
    - destruct (util_inspect ColorsShowProxy (Some v) t2) as [[text|e] t3];
        destruct Hw as (_ & Hcache & _ & _ & Hvalue); by split_and!.
    - destruct Hw as (_ & Hcache & Hvalue & _). by split_and!. }
  destruct (exceptionDetails r) as [details|].
  - destruct (isRecoverableError _); [by rewrite Hrun|].
    by destruct (Hwritten _ _ Hrun) as (? & ? & ?).
  - by destruct (Hwritten _ _ Hrun) as (? & ? & ?).
Qed.

(** A line that contains [await] is handed to [processTopLevelAwait]: when
    that returns a text, the text is what is evaluated, with [awaitPromise]
    set; when it returns [null], the line is evaluated as it is, with
    [awaitPromise] unset. *)
Theorem onLine_with_await (line : jsstring) (w : World) :
  includes line (js "await") = true →
  ∃ rest,
    calls (onLine line w).2
    = calls w ++ Evaluate (match processTopLevelAwait line with
                           | Some processed => directRequest processed true
                           | None => directRequest line false
                           end) :: rest.
Proof.
  intros Hawait. pose proof (onLine_run line w) as Hrun.
  unfold rewriteAwait in Hrun. rewrite Hawait in Hrun.
  destruct (processTopLevelAwait line) as [processed|]; simpl in Hrun;
    (destruct (host_evaluate _ (repl w) (target w)) as [[r|e] t];
     [ destruct (exceptionDetails r) as [details|];
       [ destruct (isRecoverableError _);
         [ exists []; by rewrite Hrun
         | apply written_after_evaluate in Hrun as [-> _]; eauto ]
       | apply written_after_evaluate in Hrun as [-> _]; eauto ]
     | exists []; by rewrite Hrun ]).
Qed.
End EvaluatorFacts.

(** ** The signature cache *)

Section CacheSteps.
Context {host : Host}.

#[export] Instance same_cache_preorder : PreOrder same_cache.
Proof.
  split; [by intros w|]. unfold same_cache. intros w1 w2 w3 H12 H23. congruence.
Qed.

#[export] Instance cache_grows_preorder : PreOrder cache_grows.
Proof.
  split.
  - intros w. unfold cache_grows. reflexivity.
  - unfold cache_grows. intros w1 w2 w3 H12 H23. by etransitivity.
Qed.

Lemma same_cache_grows w w' : same_cache w w' → cache_grows w w'.
Proof. unfold same_cache, cache_grows. by intros ->. Qed.

Lemma cache_set_grows id params : keeps cache_grows (cache_set id params).
Proof.
  intros w. unfold cache_grows. simpl. rewrite dom_insert_L.
  apply union_subseteq_r.
Qed.

(** The operations that leave the cache alone keep every relation that
    holds between worlds with the same cache. *)
Section Same.
Context (R : relation World) (R_same : ∀ w w', same_cache w w' → R w w').

Lemma kept_evaluate params : keeps R (Runtime_evaluate params).
Proof.
  intros w. apply R_same. unfold Runtime_evaluate.
  by destruct (host_evaluate params (repl w) (target w)).
Qed.

Lemma kept_getProperties id preview : keeps R (Runtime_getProperties id preview).
Proof.
  intros w. apply R_same. unfold Runtime_getProperties.
  by destruct (host_getProperties id (target w)).
Qed.

Lemma kept_globalLexicalScopeNames : keeps R Runtime_globalLexicalScopeNames.
Proof.
  intros w. apply R_same. unfold Runtime_globalLexicalScopeNames.
  by destruct (host_globalLexicalScopeNames (target w)).
Qed.

Lemma kept_callFunctionOn f r id : keeps R (Runtime_callFunctionOn f r id).
Proof.
  intros w. apply R_same. unfold Runtime_callFunctionOn.
  by destruct (host_callFunctionOn f r id (target w)).
Qed.

Lemma kept_inspectWith options value : keeps R (inspectWith options value).
Proof.
  intros w. apply R_same. unfold inspectWith.
  by destruct (util_inspect options value (target w)).
Qed.

Lemma kept_cache_get id : keeps R (cache_get id).
Proof. intros w. by apply R_same. Qed.
End Same.
End CacheSteps.

Ltac kept_step set_lemma :=
  lazymatch goal with
  | |- keeps _ (mret _) => apply keeps_ret; apply _
  | |- keeps _ (throw _) => apply keeps_throw; apply _
  | |- keeps _ (lift _) => apply keeps_lift; apply _
  | |- keeps _ get_repl => apply keeps_get_repl; apply _
  | |- keeps _ get_target => apply keeps_get_target; apply _
  | |- keeps _ (try_catch _) => apply keeps_try_catch
  | |- keeps _ (cache_get _) => apply kept_cache_get; assumption
  | |- keeps _ (cache_set _ _) => apply set_lemma
  | |- keeps _ (Runtime_evaluate _) => apply kept_evaluate; assumption
  | |- keeps _ (Runtime_getProperties _ _) => apply kept_getProperties; assumption
  | |- keeps _ Runtime_globalLexicalScopeNames =>
      apply kept_globalLexicalScopeNames; assumption
  | |- keeps _ (Runtime_callFunctionOn _ _ _) => apply kept_callFunctionOn; assumption
  | |- keeps _ (inspectWith _ _) => apply kept_inspectWith; assumption
  | |- keeps _ (_ ≫= _) => apply keeps_bind; [apply _ | | intros ?]
  | |- keeps _ (match ?x with _ => _ end) => destruct x
  end.

Section CacheFacts.
Context {engine : JSEngine} {host : Host} {acorn : Acorn} {modules : Modules}.

Section Kept.
Context (R : relation World) `{!PreOrder R}
  (R_same : ∀ w w', same_cache w w' → R w w').

Lemma kept_performEval code awaitPromise bestEffort :
  keeps R (performEval code awaitPromise bestEffort).
Proof. unfold performEval. by apply kept_evaluate. Qed.

Lemma kept_oneLineEval source : keeps R (oneLineEval source).
Proof.
  unfold oneLineEval.
  repeat first [apply kept_performEval | kept_step keeps_ret].
Qed.

Lemma kept_inlinePreview buffer : keeps R (inlinePreview buffer).
Proof.
  unfold inlinePreview.
  repeat first [apply kept_oneLineEval | kept_step keeps_ret].
Qed.

Lemma kept_collectGlobalNames : keeps R collectGlobalNames.
Proof. unfold collectGlobalNames. repeat kept_step keeps_ret. Qed.

Lemma kept_finish buffer keys filter : keeps R (finish buffer keys filter).
Proof.
  unfold finish. repeat first [apply kept_inlinePreview | kept_step keeps_ret].
Qed.

Lemma kept_completeMember buffer object computed property :
  keeps R (completeMember buffer object computed property).
Proof.
  unfold completeMember.
  repeat first
    [ apply kept_performEval | apply kept_inlinePreview | kept_step keeps_ret ].
Qed.

Context (R_set : ∀ id params, keeps R (cache_set id params)).

Lemma kept_completeCall buffer callee arguments_length :
  keeps R (completeCall buffer callee arguments_length).
Proof.
  unfold completeCall, nativeParams.
  repeat first [ apply kept_performEval | kept_step R_set ].
Qed.

Lemma kept_onAutocomplete buffer : keeps R (onAutocomplete buffer).
Proof.
  unfold onAutocomplete.
  repeat first
    [ apply kept_completeCall | apply kept_completeMember | apply kept_finish
    | apply kept_collectGlobalNames | apply kept_inlinePreview
    | kept_step R_set ].
Qed.
End Kept.

(** No completion removes a handle from the signature cache, and only a
    call whose argument list is still open can change the cache at all: for
    every other buffer the cache after [onAutocomplete] is the cache
    before. *)
Theorem cache_changes_in_open_calls_only (buffer : jsstring) (w : World) :
  cache_grows w (onAutocomplete buffer w).2
  ∧ (same_cache w (onAutocomplete buffer w).2
     ∨ ∃ callee arguments_length rest,
         parseDammit buffer
           = ExpressionStatement (CallExpression callee arguments_length) :: rest
         ∧ endsWith (trim buffer) (js ")") = false).
Proof.
  split.
  - apply kept_onAutocomplete; [apply _ | apply same_cache_grows | apply cache_set_grows].
  - assert (∀ w w', same_cache w w' → same_cache w w') as Hsame by done.
    unfold onAutocomplete. case_bool_decide.
    { left. revert w. fold (keeps same_cache
        (collectGlobalNames ≫= λ keys, mret (Candidates keys))).
      repeat first [apply kept_collectGlobalNames | kept_step keeps_ret]; first [done | apply _]. }
    destruct (parseDammit buffer) as [|[expression|id] rest] eqn:Hparse;
      [by left| |by left].
    destruct expression as [name|callee arguments_length|object computed property|].
    + left. revert w.
      match goal with |- ∀ w, same_cache w (?m w).2 => fold (keeps same_cache m) end.
      repeat first
        [ apply kept_collectGlobalNames | apply kept_inlinePreview | apply kept_finish
        | kept_step keeps_ret ]; first [done | apply _].
    + destruct (endsWith (trim buffer) (js ")")) eqn:Hclosed; [|right; eauto].
      left. revert w.
      match goal with |- ∀ w, same_cache w (?m w).2 => fold (keeps same_cache m) end.
      repeat first [ apply kept_finish | kept_step keeps_ret ]; first [done | apply _].
    + left. revert w.
      match goal with |- ∀ w, same_cache w (?m w).2 => fold (keeps same_cache m) end.
      repeat first
        [ apply kept_completeMember | apply kept_finish | kept_step keeps_ret ]; first [done | apply _].
    + left. revert w.
      match goal with |- ∀ w, same_cache w (?m w).2 => fold (keeps same_cache m) end.
      repeat first [ apply kept_finish | kept_step keeps_ret ]; first [done | apply _].
Qed.
End CacheFacts.

(** ** Completion, branch by branch *)

Section AutocompleteFacts.
Context {engine : JSEngine} {host : Host} {acorn : Acorn} {modules : Modules}.

Lemma completeCall_hit_run buffer callee arguments_length w r t hit s :
  host_evaluate (spanRequest buffer (callee_span callee)) (repl w) (target w)
    = (Returned r, t) →
  exceptionDetails r = None →
  functionCompletionCache w !! objectId (result r) = Some hit →
  finishParams arguments_length buffer hit = Some s →
  completeCall buffer callee arguments_length w
  = (Returned (Return (Text s)),
     sent (Evaluate (spanRequest buffer (callee_span callee))) t w).
Proof.
  intros Heval Hexc Hhit Hs. unfold completeCall.
  rewrite run_bind, performEval_bestEffort_run. fold (spanRequest buffer (callee_span callee)).
  rewrite Heval. cbn [fst snd]. rewrite Hexc, run_bind. cbn [cache_get sent functionCompletionCache].
  rewrite Hhit. cbn [from_option]. by rewrite Hs.
Qed.

Lemma completeCall_fill_run buffer callee arguments_length w r t d expr rest params :
  host_evaluate (spanRequest buffer (callee_span callee)) (repl w) (target w)
    = (Returned r, t) →
  exceptionDetails r = None →
  functionCompletionCache w !! objectId (result r) = None →
  description (result r) = Some d →
  includes d (js "[native code]") = false →
  (Z.of_nat (length d) < 10000)%Z →
  parseDescription d = Some (Some expr :: rest) →
  describedParams expr = Some params →
  Forall (λ p, complete p = true) params →
  completeCall buffer callee arguments_length w
  = (Returned (returnIfDefined (finishParams arguments_length buffer (token <$> params))),
     {| target := t; repl := repl w;
        functionCompletionCache :=
          <[objectId (result r) := token <$> params]> (functionCompletionCache w);
        calls := calls w ++ [Evaluate (spanRequest buffer (callee_span callee))] |}).
Proof.
  intros Heval Hexc Hmiss Hd Hnative Hshort Hparse Hparams Hcomplete.
  unfold completeCall.
  rewrite run_bind, performEval_bestEffort_run. fold (spanRequest buffer (callee_span callee)).
  rewrite Heval. cbn [fst snd]. rewrite Hexc, run_bind. cbn [cache_get sent functionCompletionCache].
  rewrite Hmiss. cbn [from_option]. rewrite Hd, Hnative.
  destruct (Z.ltb_spec (Z.of_nat (length d)) 10000); [|lia].
  rewrite Hparse, Hparams, run_bind. unfold lift.
  rewrite (outcome_map_returned paramName token).
  2:{ eapply Forall_impl; [exact Hcomplete|]. intros p. apply paramName_complete. }
  by rewrite run_bind.
Qed.

(** The cache is trusted by handle alone: when it has tokens for the handle
    the callee evaluates to, and their number differs from the number of
    arguments typed, the suggestion is made from them.  The callee's
    description is not looked at (it may be missing, or that of another
    function), nothing is parsed, no table is consulted, and the cache is
    as it was. *)
Theorem completeCall_cache_hit buffer callee arguments_length (w : World) r t hit :
  host_evaluate (spanRequest buffer (callee_span callee)) (repl w) (target w)
    = (Returned r, t) →
  exceptionDetails r = None →
  functionCompletionCache w !! objectId (result r) = Some hit →
  arguments_length ≠ length hit →
  ∃ s, finishParams arguments_length buffer hit = Some s
       ∧ completeCall buffer callee arguments_length w
         = (Returned (Return (Text s)),
            sent (Evaluate (spanRequest buffer (callee_span callee))) t w).
Proof.
  intros Heval Hexc Hhit Hlen.
  destruct (finishParams arguments_length buffer hit) as [s|] eqn:Hs.
  - exists s. split; [done|]. by eapply completeCall_hit_run.
  - unfold finishParams in Hs. rewrite bool_decide_eq_false_2 in Hs by done.
    by repeat case_match.
Qed.

(** Resolving a signature stores it: when the cache has nothing for the
    callee's handle and the callee is described by a text that parses to a
    function with complete parameters, the suggestion is made from the
    parameters' tokens, and afterwards the cache has exactly those tokens
    for the handle, and what it had for every other handle. *)
Theorem completeCall_cache_fill buffer callee arguments_length (w : World) r t d
    expr rest params :
  host_evaluate (spanRequest buffer (callee_span callee)) (repl w) (target w)
    = (Returned r, t) →
  exceptionDetails r = None →
  functionCompletionCache w !! objectId (result r) = None →
  description (result r) = Some d →
  includes d (js "[native code]") = false →
  (Z.of_nat (length d) < 10000)%Z →
  parseDescription d = Some (Some expr :: rest) →
  describedParams expr = Some params →
  Forall (λ p, complete p = true) params →
  let run := completeCall buffer callee arguments_length w in
  run.1 = Returned (returnIfDefined
                      (finishParams arguments_length buffer (token <$> params)))
  ∧ functionCompletionCache run.2 !! objectId (result r) = Some (token <$> params)
  ∧ ∀ id, id ≠ objectId (result r) →
          functionCompletionCache run.2 !! id = functionCompletionCache w !! id.
Proof.
  intros Heval Hexc Hmiss Hd Hnative Hshort Hparse Hparams Hcomplete run. subst run.
  erewrite completeCall_fill_run by done. simpl. split_and!; [done|..].
  - apply lookup_insert_eq.
  - intros id Hid. by apply lookup_insert_ne.
Qed.
End AutocompleteFacts.

Section MemoFacts.
Context {engine : JSEngine} {host : Host} {modules : Modules}.

End MemoFacts.

Section BranchFacts.
Context {engine : JSEngine} {host : Host} {acorn : Acorn} {modules : Modules}.

Lemma onAutocomplete_member_run buffer object computed property rest w :
  buffer ≠ [] →
  parseDammit buffer
    = ExpressionStatement (MemberExpression object computed property) :: rest →
  onAutocomplete buffer w
  = match completeMember buffer object computed property w with
    | (Returned (Return c), w') => (Returned c, w')
    | (Returned (Continue (keys, filter)), w') => finish buffer (Some keys) filter w'
    | (Thrown e, w') => (Thrown e, w')
    end.
Proof.
  intros Hbuffer Hparse. unfold onAutocomplete.
  rewrite bool_decide_eq_false_2 by by destruct buffer.
  rewrite Hparse, !run_bind. cbn [mret M_ret]. rewrite !run_bind.
  by destruct (completeMember buffer object computed property w)
    as [[[c|[keys filter]]|e] w'].
Qed.

Lemma onAutocomplete_call_run buffer callee arguments_length rest w :
  buffer ≠ [] →
  parseDammit buffer
    = ExpressionStatement (CallExpression callee arguments_length) :: rest →
  endsWith (trim buffer) (js ")") = false →
  onAutocomplete buffer w
  = match completeCall buffer callee arguments_length w with
    | (Returned (Return c), w') => (Returned c, w')
    | (Returned (Continue _), w') => inlinePreview buffer w'
    | (Thrown e, w') => (Thrown e, w')
    end.
Proof.
  intros Hbuffer Hparse Hopen. unfold onAutocomplete.
  rewrite bool_decide_eq_false_2 by by destruct buffer.
  rewrite Hparse, Hopen, !run_bind. cbn [mret M_ret negb]. rewrite !run_bind.
  by destruct (completeCall buffer callee arguments_length w)
    as [[[c|[]]|e] w'].
Qed.

(** What a member access does once the receiver has evaluated to something
    that needs no boxing and its properties have been read. *)
Lemma completeMember_unboxed_run buffer object computed property w r t properties t' :
  host_evaluate (spanRequest buffer object) (repl w) (target w) = (Returned r, t) →
  exceptionDetails r = None →
  needsBoxing (result r) = false →
  host_getProperties (objectId (result r)) t = (Returned properties, t') →
  let w2 := sent (GetProperties (objectId (result r)) true) t'
              (sent (Evaluate (spanRequest buffer object)) t w) in
  let keys := ownThenInherited properties in
  completeMember buffer object computed property w
  = if keys_include keys (memberFilter computed property).1
    then match inlinePreview buffer w2 with
         | (Returned c, w') => (Returned (Return c), w')
         | (Thrown e, w') => (Thrown e, w')
         end
    else (Returned
            (Continue
               (if computed
                then bracketKey (memberFilter computed property).2 <$> keys
                else List.filter isIdentifier keys,
                (memberFilter computed property).1)), w2).
Proof.
  intros Heval Hexc Hbox Hprops w2 keys. subst w2 keys.
  unfold completeMember.
  destruct (memberFilter computed property) as [filter leadingQuote].
  rewrite run_bind, performEval_bestEffort_run. fold (spanRequest buffer object).
  rewrite Heval. cbn [fst snd]. rewrite Hexc, Hbox, !run_bind. cbn [mret M_ret].
  rewrite run_bind. unfold Runtime_getProperties at 1. cbn [sent target].
  rewrite Hprops.
  destruct (keys_include _ filter).
  - rewrite run_bind. by destruct (inlinePreview buffer _) as [[c|e] w'].
  - by destruct computed.
Qed.

(** When evaluating the receiver of a member access reports an exception,
    there is no completion: [onAutocomplete] returns [undefined] after that
    one request, and does not fall back to a preview. *)
Theorem onAutocomplete_member_receiver_fails buffer object computed property rest
    (w : World) r t details :
  buffer ≠ [] →
  parseDammit buffer
    = ExpressionStatement (MemberExpression object computed property) :: rest →
  host_evaluate (spanRequest buffer object) (repl w) (target w) = (Returned r, t) →
  exceptionDetails r = Some details →
  onAutocomplete buffer w
  = (Returned Undefined, sent (Evaluate (spanRequest buffer object)) t w).
Proof.
  intros Hbuffer Hparse Heval Hexc.
  rewrite (onAutocomplete_member_run _ _ _ _ _ _ Hbuffer Hparse).
  unfold completeMember.
  destruct (memberFilter computed property) as [filter leadingQuote].
  rewrite run_bind, performEval_bestEffort_run. fold (spanRequest buffer object).
  by rewrite Heval; cbn [fst snd]; rewrite Hexc.
Qed.

(** Dot access.  With the receiver evaluated and its properties read, and
    the typed property name [typed] not itself a property: the completion
    is the property names that are identifiers and start with [typed], own
    names first, each without [typed].  So putting [typed] back in front of
    a returned string always gives an identifier-shaped property name of the
    receiver. *)
Theorem onAutocomplete_dot buffer object typed rest (w : World) r t properties t' :
  buffer ≠ [] → typed ≠ [] → typed ≠ [10006%N] →
  parseDammit buffer
    = ExpressionStatement (MemberExpression object false (PropertyIdentifier typed))
        :: rest →
  host_evaluate (spanRequest buffer object) (repl w) (target w) = (Returned r, t) →
  exceptionDetails r = None →
  needsBoxing (result r) = false →
  host_getProperties (objectId (result r)) t = (Returned properties, t') →
  typed ∉ ownThenInherited properties →
  let suggestions :=
    drop (length typed)
      <$> List.filter (λ k, startsWith k typed)
            (List.filter isIdentifier (ownThenInherited properties)) in
  (onAutocomplete buffer w).1 = Returned (Candidates suggestions)
  ∧ ∀ s, s ∈ suggestions →
         isIdentifier (typed ++ s) = true
         ∧ ∃ p, p ∈ properties ∧ symbol p = false ∧ name p = typed ++ s.
Proof.
  intros Hbuffer Htyped Hplaceholder Hparse Heval Hexc Hbox Hprops Hnew suggestions.
  subst suggestions. split.
  - rewrite (onAutocomplete_member_run _ _ _ _ _ _ Hbuffer Hparse).
    rewrite (completeMember_unboxed_run _ _ _ _ _ _ _ _ _ Heval Hexc Hbox Hprops).
    cbn [memberFilter]. rewrite (bool_decide_eq_false_2 (typed = _)) by done.
    cbn [fst snd keys_include]. rewrite bool_decide_eq_false_2 by done.
    unfold finish. cbn [ToBoolean]. rewrite bool_decide_eq_false_2 by done.
    cbn [negb]. rewrite run_bind. unfold lift. by rewrite filterKeys_string.
  - intros s (k & -> & Hk)%list_elem_of_fmap.
    apply list_elem_of_In, filter_In in Hk as [Hk Hstarts].
    apply filter_In in Hk as [Hk Hident].
    apply startsWith_true in Hstarts as [rest' ->].
    rewrite drop_app_length. split; [done|].
    apply list_elem_of_In in Hk.
    by apply elem_of_ownThenInherited in Hk.
Qed.

(** Dot access with nothing typed after the dot (the loose parser's
    placeholder stands for the name), on a receiver that needs no boxing:
    every identifier-shaped property name, own names first, in full. *)
Theorem onAutocomplete_dot_all buffer object rest (w : World) r t properties t' :
  buffer ≠ [] →
  parseDammit buffer
    = ExpressionStatement
        (MemberExpression object false (PropertyIdentifier [10006%N])) :: rest →
  host_evaluate (spanRequest buffer object) (repl w) (target w) = (Returned r, t) →
  exceptionDetails r = None →
  needsBoxing (result r) = false →
  host_getProperties (objectId (result r)) t = (Returned properties, t') →
  (onAutocomplete buffer w).1
  = Returned (Candidates (List.filter isIdentifier (ownThenInherited properties))).
Proof.
  intros Hbuffer Hparse Heval Hexc Hbox Hprops.
  rewrite (onAutocomplete_member_run _ _ _ _ _ _ Hbuffer Hparse).
  rewrite (completeMember_unboxed_run _ _ _ _ _ _ _ _ _ Heval Hexc Hbox Hprops).
  cbn [memberFilter]. by rewrite bool_decide_eq_true_2.
Qed.

(** A dot access on a receiver that needs no boxing, whose typed name is
    exactly a property of the receiver, is answered with the inline preview
    of the whole buffer, not with a list; the name need not be
    identifier-shaped for that. *)
Theorem onAutocomplete_member_exact buffer object typed rest (w : World) r t
    properties t' :
  buffer ≠ [] → typed ≠ [10006%N] →
  parseDammit buffer
    = ExpressionStatement (MemberExpression object false (PropertyIdentifier typed))
        :: rest →
  host_evaluate (spanRequest buffer object) (repl w) (target w) = (Returned r, t) →
  exceptionDetails r = None →
  needsBoxing (result r) = false →
  host_getProperties (objectId (result r)) t = (Returned properties, t') →
  typed ∈ ownThenInherited properties →
  onAutocomplete buffer w
  = inlinePreview buffer
      (sent (GetProperties (objectId (result r)) true) t'
         (sent (Evaluate (spanRequest buffer object)) t w)).
Proof.
  intros Hbuffer Hplaceholder Hparse Heval Hexc Hbox Hprops Hin.
  rewrite (onAutocomplete_member_run _ _ _ _ _ _ Hbuffer Hparse).
  rewrite (completeMember_unboxed_run _ _ _ _ _ _ _ _ _ Heval Hexc Hbox Hprops).
  cbn [memberFilter]. rewrite (bool_decide_eq_false_2 (typed = _)) by done.
  cbn [fst snd keys_include]. rewrite bool_decide_eq_true_2 by done.
  by destruct (inlinePreview buffer _) as [[c|e] w'].
Qed.

(** A buffer whose first statement is not an expression statement gets no
    completion and no request is sent; a non-empty buffer in which the loose
    parser finds no statement at all (blanks only) makes [onAutocomplete]
    throw a [TypeError]. *)
Theorem onAutocomplete_no_expression buffer (w : World) :
  buffer ≠ [] →
  match parseDammit buffer with
  | [] => onAutocomplete buffer w = (Thrown TypeError, w)
  | OtherStatement _ :: _ => onAutocomplete buffer w = (Returned Undefined, w)
  | ExpressionStatement _ :: _ => True
  end.
Proof.
  intros Hbuffer. unfold onAutocomplete.
  rewrite bool_decide_eq_false_2 by by destruct buffer.
  by destruct (parseDammit buffer) as [|[]].
Qed.

(** An identifier that is exactly the name of a global is answered with the
    inline preview of the buffer, not with the names it is a prefix of. *)
Theorem onAutocomplete_global_exact buffer name rest (w w1 : World) names :
  buffer ≠ [] →
  parseDammit buffer = ExpressionStatement (Identifier name) :: rest →
  collectGlobalNames w = (Returned names, w1) →
  name ∈ names →
  onAutocomplete buffer w = inlinePreview buffer w1.
Proof.
  intros Hbuffer Hparse Hnames Hin. unfold onAutocomplete.
  rewrite bool_decide_eq_false_2 by by destruct buffer.
  rewrite Hparse, !run_bind, Hnames. cbn [keys_include].
  rewrite bool_decide_eq_true_2 by done. rewrite run_bind.
  by destruct (inlinePreview buffer w1) as [[c|e] w'].
Qed.


(** When the callee of an open call cannot be evaluated, the completion is
    the inline preview of the buffer, attempted after that one request. *)
Theorem onAutocomplete_callee_fails buffer callee arguments_length rest (w : World)
    r t details :
  buffer ≠ [] →
  parseDammit buffer
    = ExpressionStatement (CallExpression callee arguments_length) :: rest →
  endsWith (trim buffer) (js ")") = false →
  host_evaluate (spanRequest buffer (callee_span callee)) (repl w) (target w)
    = (Returned r, t) →
  exceptionDetails r = Some details →
  onAutocomplete buffer w
  = inlinePreview buffer
      (sent (Evaluate (spanRequest buffer (callee_span callee))) t w).
Proof.
  intros Hbuffer Hparse Hopen Heval Hexc.
  rewrite (onAutocomplete_call_run _ _ _ _ _ Hbuffer Hparse Hopen).
  unfold completeCall.
  rewrite run_bind, performEval_bestEffort_run.
  fold (spanRequest buffer (callee_span callee)).
  by rewrite Heval; cbn [fst snd]; rewrite Hexc.
Qed.
End BranchFacts.

(** ** The earlier evaluator *)

Section LegacyFacts.
Context {vm : Legacy.VM}.

Lemma trim_core (ws1 core ws2 : jsstring) (first last : N) :
  all_whitespace ws1 → all_whitespace ws2 →
  is_whitespace first = false → is_whitespace last = false →
  trim (ws1 ++ (first :: core ++ [last]) ++ ws2) = first :: core ++ [last].
Proof.
  intros Hws1 Hws2 Hfirst Hlast. unfold trim.
  rewrite trimStart_whitespace by done.
  cbn [app]. rewrite trimStart_visible by done.
  change (first :: (core ++ [last]) ++ ws2) with ((first :: core ++ [last]) ++ ws2).
  rewrite trimEnd_whitespace by done.
  change (first :: core ++ [last]) with ((first :: core) ++ [last]).
  by apply trimEnd_visible.
Qed.

(** The test of line 514 holds of exactly the texts that are an opening
    brace, characters without a line break, and a closing brace, with white
    space allowed before and after. *)
Lemma test_braces_spec (code : jsstring) :
  Legacy.test_braces code = true ↔ Legacy.braces_on_one_line code.
Proof.
  unfold Legacy.test_braces, Legacy.braces_on_one_line. split.
  - destruct (trim_split code) as (ws1 & ws2 & Hws1 & Hws2 & Hcode).
    destruct (trim code) as [|c rest] eqn:Htrim; [done|].
    case_bool_decide as Hc; [subst c|done].
    destruct (reverse rest) as [|d between] eqn:Hrest; [done|].
    case_bool_decide as Hd; [subst d|done]. cbn [andb].
    intros Hbetween. exists ws1, (reverse between), ws2.
    split_and!; [done..| |].
    + apply Forall_reverse, Forall_forall. intros x Hx.
      apply Is_true_true, forallb_True, Forall_forall with (x := x) in Hbetween;
        [|done].
      by apply negb_prop_elim, Is_true_false in Hbetween.
    + rewrite Hcode. f_equal. apply (f_equal reverse) in Hrest.
      rewrite reverse_involutive in Hrest. rewrite Hrest, reverse_cons.
      change (js "{") with [123%N]. change (js "}") with [125%N].
      cbn [app]. f_equal. by rewrite <- (assoc (++)).
  - intros (ws1 & between & ws2 & Hws1 & Hws2 & Hbetween & ->).
    change (ws1 ++ js "{" ++ between ++ js "}" ++ ws2)
      with (ws1 ++ (123%N :: between ++ [125%N] ++ ws2)).
    replace (ws1 ++ 123%N :: between ++ [125%N] ++ ws2)
      with (ws1 ++ (123%N :: between ++ [125%N]) ++ ws2)
      by (cbn [app]; by rewrite <- !(assoc (++))).
    rewrite trim_core by done.
    rewrite bool_decide_eq_true_2 by done.
    rewrite reverse_app, reverse_singleton. cbn [app].
    rewrite bool_decide_eq_true_2 by done. cbn [andb].
    apply Is_true_true, forallb_True, Forall_reverse.
    eapply Forall_impl; [exact Hbetween|]. intros c Hc. simpl in Hc.
    rewrite Hc. done.
Qed.

(** The earlier [eval] tries a text in parentheses exactly when the text is
    braces around a single line.  It runs the text as it is after that only
    when the parenthesized form threw a [SyntaxError], and then the outcome
    is that of the second run; any other text, a brace pair around several
    lines included, is run once, as it is.  So at most two scripts are
    run. *)
Theorem legacy_eval_runs (code : jsstring) (w : Legacy.world) :
  (Legacy.braces_on_one_line code
   ∧ match Legacy.run (js "(" ++ code ++ js ")") w with
     | (Legacy.Throw _ true, w') => Legacy.eval code w = Legacy.run code w'
     | (c, w') => Legacy.eval code w = (c, w')
     end)
  ∨ (¬ Legacy.braces_on_one_line code
     ∧ Legacy.eval code w = Legacy.run code w).
Proof.
  unfold Legacy.eval. rewrite <- test_braces_spec.
  destruct (Legacy.test_braces code).
  - left. split; [done|].
    by destruct (Legacy.run _ w) as [[v|err []] w'].
  - right. split; [done|].
    by destruct (Legacy.run code w) as [[v|err syntax] w'].
Qed.

End LegacyFacts.

(** ** Runs on the second concrete environment *)

Section Demo2Facts.
#[local] Existing Instances Demo.engine Demo2.host Demo2.acorn Demo.modules
  Demo2.values Demo2.vm.

Lemma library_loaded_once_witness :
  (Global.readTimes 3 (js "fs") REPL.initial Demo2.global).1
    = Some (Demo2.Exports (js "fs"))
  ∧ Global.required (Global.readTimes 3 (js "fs") REPL.initial Demo2.global).2
    = [js "process"; js "fs"].
Proof.
  pose proof (library_loaded_once 2 (js "fs") REPL.initial Demo2.global false
                ltac:(by vm_compute)) as (Hvalue & Hrequired & _).
  split; [exact Hvalue|]. rewrite Hrequired. by vm_compute.
Defined.

Ltac demo_setter :=
  let H := fresh in
  intros ? ? ? H; vm_compute in H; by simplify_eq.

Lemma assign_read_witness :
  Global.read (js "fs") REPL.initial
    (Global.assign (js "fs") (Demo2.Object (js "mine")) Demo2.global)
  = (Some (Demo2.Object (js "mine")),
     Global.assign (js "fs") (Demo2.Object (js "mine")) Demo2.global)
  ∧ Global.required
      (Global.assign (js "fs") (Demo2.Object (js "mine")) Demo2.global)
    = [js "process"].
Proof.
  pose proof (assign_read (values := Demo2.values) (js "fs")
                (Demo2.Object (js "mine")) REPL.initial Demo2.global)
    as Hassign.
  destruct Hassign as [Hread Hrequired]; [demo_setter|].
  split; [exact Hread|]. rewrite Hrequired. by vm_compute.
Defined.

Ltac demo_decide := apply (bool_decide_unpack _); by vm_compute.
Ltac demo_differ := let H := fresh in intros H; vm_compute in H; discriminate.

Lemma startup_libraries_witness :
  Global.required Demo2.global = [js "process"]
  ∧ Global.properties Demo2.global !! js "process"
    = Some (Global.Accessor (Global.Library (Demo2.Exports (js "process")))
              (Global.SetReal (js "process")) false)
  ∧ Global.properties Demo2.global !! js "path"
    = Some (Global.Accessor (Global.LoadLibrary (js "path"))
              (Global.SetReal (js "path")) false)
  ∧ Global.properties Demo2.global !! js "fs/promises" = None.
Proof.
  assert (∀ name, Global.ownSetter name
                    {| Global.properties := ∅; Global.required := [] |})
    as demo2_ownSetter by (by intros name get target e).
  assert (Global.hasProcess Demo2.builtinModules
            {| Global.properties := ∅; Global.required := [] |})
    as demo2_hasProcess by (left; demo_decide).
  pose proof (startup_libraries (values := Demo2.values) Demo2.builtinModules
                (Demo2.Object (js "module")) (Demo2.Object (js "require"))
                (Demo2.Object (js "REPL"))
                {| Global.properties := ∅; Global.required := [] |} (js "path")
                (demo2_ownSetter _) (demo2_ownSetter _) (demo2_ownSetter _)
                demo2_hasProcess ltac:(demo_decide) ltac:(demo_differ))
    as (Hrequired & Hprocess & Hpath & _).
  pose proof (startup_libraries (values := Demo2.values) Demo2.builtinModules
                (Demo2.Object (js "module")) (Demo2.Object (js "require"))
                (Demo2.Object (js "REPL"))
                {| Global.properties := ∅; Global.required := [] |}
                (js "fs/promises")
                (demo2_ownSetter _) (demo2_ownSetter _) (demo2_ownSetter _)
                demo2_hasProcess ltac:(demo_decide) ltac:(demo_differ))
    as (_ & _ & _ & Hpromises).
  split_and!.
  - exact Hrequired.
  - exact Hprocess.
  - apply Hpath; [demo_decide|reflexivity|reflexivity].
  - apply Hpromises. right. right. reflexivity.
Defined.

Lemma startup_shadows_witness :
  Global.read (js "module") REPL.initial Demo2.global
  = (Some (Demo2.Object (js "module")), Demo2.global)
  ∧ Global.read (js "REPL") REPL.initial Demo2.global
    = (Some (Demo2.Object (js "REPL")), Demo2.global).
Proof.
  assert (∀ name, Global.ownSetter name
                    {| Global.properties := ∅; Global.required := [] |})
    as demo2_ownSetter by (by intros name get target e).
  assert (Global.hasProcess Demo2.builtinModules
            {| Global.properties := ∅; Global.required := [] |})
    as demo2_hasProcess by (left; demo_decide).
  pose proof (startup_shadows (values := Demo2.values) Demo2.builtinModules
                (Demo2.Object (js "module")) (Demo2.Object (js "require"))
                (Demo2.Object (js "REPL"))
                {| Global.properties := ∅; Global.required := [] |} REPL.initial
                (demo2_ownSetter _) (demo2_ownSetter _) (demo2_ownSetter _)
                demo2_hasProcess)
    as (Hmodule & _ & HREPL).
  by split.
Defined.

Lemma onLine_with_await_witness :
  ∃ rest,
    calls (onLine (modules := with_processTopLevelAwait Demo2.awaited Demo.modules)
             (js "await 1") Demo2.world).2
    = Evaluate (directRequest (js "(async () => { return (await 1) })()") true)
        :: rest.
Proof.
  exact (onLine_with_await
           (modules := with_processTopLevelAwait Demo2.awaited Demo.modules)
           (js "await 1") Demo2.world eq_refl).
Defined.

Lemma f_params_complete : Forall (λ p, complete p = true) Demo2.f_params.
Proof. repeat constructor. Qed.

Lemma completeCall_cache_hit_witness :
  ∃ s, finishParams 1 (js "f(1, ") [js "a"; js "?b"; js "...rest"] = Some s
       ∧ completeCall (js "f(1, ") Demo2.f_callee 1 Demo2.cached
         = (Returned (Return (Text s)),
            sent (Evaluate (spanRequest (js "f(1, ") (callee_span Demo2.f_callee))) ()
              Demo2.cached).
Proof.
  refine (completeCall_cache_hit (js "f(1, ") Demo2.f_callee 1 Demo2.cached
            (Demo.success Demo2.f) () [js "a"; js "?b"; js "...rest"]
            eq_refl eq_refl eq_refl _).
  simpl. lia.
Defined.

Lemma completeCall_cache_fill_witness :
  (completeCall (js "f(") Demo2.f_callee 0 Demo2.world).1
  = Returned (returnIfDefined (finishParams 0 (js "f(") (token <$> Demo2.f_params)))
  ∧ functionCompletionCache (completeCall (js "f(") Demo2.f_callee 0 Demo2.world).2
      !! Some (js "3")
    = Some (token <$> Demo2.f_params).
Proof.
  pose proof (completeCall_cache_fill (js "f(") Demo2.f_callee 0 Demo2.world
                (Demo.success Demo2.f) () (js "function f(a, b = 1, ...rest) {}")
                (Described.FunctionExpression Demo2.f_params) [] Demo2.f_params
                eq_refl eq_refl eq_refl eq_refl eq_refl
                ltac:(simpl; lia) eq_refl eq_refl f_params_complete)
    as (Hvalue & Hcache & _).
  by split.
Defined.


Lemma onAutocomplete_member_receiver_fails_witness :
  onAutocomplete (js "nope.x") Demo2.world
  = (Returned Undefined,
     sent (Evaluate (spanRequest (js "nope.x") Demo2.Math_span)) () Demo2.world).
Proof.
  refine (onAutocomplete_member_receiver_fails (js "nope.x") Demo2.Math_span false
            (PropertyIdentifier (js "x")) [] Demo2.world
            (Demo.uncaught
               (Demo.error "ReferenceError" "ReferenceError: nope is not defined" "8"))
            ()
            {| text := js "Uncaught";
               exception :=
                 Demo.error "ReferenceError" "ReferenceError: nope is not defined" "8" |}
            _ eq_refl eq_refl eq_refl).
  done.
Defined.

Lemma onAutocomplete_dot_witness :
  (onAutocomplete (js "Math.m") Demo2.world).1
  = Returned (Candidates [js "ax"; js "in"]).
Proof.
  refine (proj1 (onAutocomplete_dot (js "Math.m") Demo2.Math_span (js "m") []
                   Demo2.world (Demo.success (Demo.object "Math" "2")) ()
                   Demo2.Math_properties ()
                   _ _ _ eq_refl eq_refl eq_refl eq_refl eq_refl _));
    first [done | demo_decide].
Defined.

Lemma onAutocomplete_dot_all_witness :
  (onAutocomplete (js "Math.") Demo2.world).1
  = Returned (Candidates [js "max"; js "min"; js "PI"; js "toString"]).
Proof.
  refine (onAutocomplete_dot_all (js "Math.") Demo2.Math_span []
            Demo2.world (Demo.success (Demo.object "Math" "2")) ()
            Demo2.Math_properties () _ eq_refl eq_refl eq_refl eq_refl eq_refl).
  done.
Defined.

Lemma onAutocomplete_member_exact_witness :
  onAutocomplete (js "Math.max") Demo2.world
  = inlinePreview (js "Math.max")
      (sent (GetProperties (Some (js "2")) true) ()
         (sent (Evaluate (spanRequest (js "Math.max") Demo2.Math_span)) () Demo2.world)).
Proof.
  refine (onAutocomplete_member_exact (js "Math.max") Demo2.Math_span (js "max") []
            Demo2.world (Demo.success (Demo.object "Math" "2")) ()
            Demo2.Math_properties () _ _ eq_refl eq_refl eq_refl eq_refl eq_refl _);
    first [done | demo_decide].
Defined.

Lemma onAutocomplete_no_expression_witness :
  onAutocomplete (js "let x") Demo2.world = (Returned Undefined, Demo2.world)
  ∧ onAutocomplete (js " ") Demo2.world = (Thrown TypeError, Demo2.world).
Proof.
  split.
  - refine (onAutocomplete_no_expression (js "let x") Demo2.world _). done.
  - refine (onAutocomplete_no_expression (js " ") Demo2.world _). done.
Defined.

Lemma onAutocomplete_global_exact_witness :
  onAutocomplete (js "Math") Demo2.world
  = inlinePreview (js "Math") (collectGlobalNames Demo2.world).2.
Proof.
  refine (onAutocomplete_global_exact (js "Math") (js "Math") [] Demo2.world
            (collectGlobalNames Demo2.world).2
            [js "Object"; js "Math"; js "a"; js "f"] _ eq_refl eq_refl _);
    first [done | demo_decide].
Defined.


Lemma onAutocomplete_callee_fails_witness :
  onAutocomplete (js "nope(") Demo2.world
  = inlinePreview (js "nope(")
      (sent (Evaluate (spanRequest (js "nope(") Demo2.Math_span)) () Demo2.world).
Proof.
  refine (onAutocomplete_callee_fails (js "nope(")
            {| callee_span := Demo2.Math_span; callee_object := None |} 0 []
            Demo2.world
            (Demo.uncaught
               (Demo.error "ReferenceError" "ReferenceError: nope is not defined" "8"))
            ()
            {| text := js "Uncaught";
               exception :=
                 Demo.error "ReferenceError" "ReferenceError: nope is not defined" "8" |}
            _ eq_refl eq_refl eq_refl eq_refl).
  done.
Defined.
(** Two runs of the earlier [eval]: an object literal is run once, in
    parentheses; a block is run in parentheses first and then as it is. *)
Example legacy_eval_object :
  Legacy.eval (js "{a: 1}") Demo2.legacy_world
  = (Legacy.Normal (Demo.object "Object" "4"),
     {| Legacy.context := (); Legacy.scripts := [js "({a: 1})"] |}).
Proof. reflexivity. Qed.

Example legacy_eval_block :
  Legacy.eval (js "{ let x = 1 }") Demo2.legacy_world
  = (Legacy.Normal Demo.undefined,
     {| Legacy.context := ();
        Legacy.scripts := [js "({ let x = 1 })"; js "{ let x = 1 }"] |}).
Proof. reflexivity. Qed.
End Demo2Facts.

(** ** Runs against a target that fails *)

Section FailingTargets.
#[local] Existing Instances Demo.engine Demo2.acorn Demo.modules.

(** When the rendering throws, [onLine] throws, and the slot has already
    been written. *)
Example onLine_hook_throws :
  (onLine (js "1") Demo2.hooked_world).1 = Thrown TypeError
  ∧ REPL.last (repl (onLine (js "1") Demo2.hooked_world).2)
    = Some (Demo.number "1")
  ∧ calls (onLine (js "1") Demo2.hooked_world).2
    = [Evaluate (directRequest (host := Demo2.hooked) (js "1") false);
       CallFunctionOn SetLast (Demo.number "1") 1%N].
Proof. by split_and!. Qed.

(** When the request that writes the slot is refused, [onLine] throws and
    the slot is as it was. *)
Example onLine_request_refused :
  (onLine (js "1") Demo2.refusing_world).1 = Thrown ProtocolError
  ∧ repl (onLine (js "1") Demo2.refusing_world).2 = REPL.initial
  ∧ calls (onLine (js "1") Demo2.refusing_world).2
    = [Evaluate (directRequest (host := Demo2.refusing) (js "1") false);
       CallFunctionOn SetLast (Demo.number "1") 1%N].
Proof. by split_and!. Qed.

(** The preview of an object throws when its inspection does; the preview
    of a number does not inspect a slot. *)
Example oneLineEval_hook_throws :
  (oneLineEval (js "Math") Demo2.hooked_world).1 = Thrown TypeError
  ∧ (oneLineEval (js "1") Demo2.hooked_world).1 = Returned (Some (js " // 1")).
Proof. by split. Qed.
End FailingTargets.
